(** * A shallow embedding of the TSDoc node fragments

    The development follows three TypeScript source files:
    - [nodes/DocMemberSymbol.ts]: [DocMemberSymbol], [ITextLocation], [TextRange];
    - [nodes/DocPlainText.ts]: [DocPlainText];
    - [nodes/DocParamCollection.ts]: [DocParamCollection].

    Conventions of the embedding.
    - A JavaScript [number] used as a buffer offset is an integer of [Z]
      (the source documents [index] as "an integer offset"); comparisons and
      subtraction are the ones of [Z].
    - A JavaScript string is a [string], a sequence of character codes; its
      [length] is the number of codes.
    - [throw new Error(msg)] is the [Throw msg] result.
    - A field of type [T | undefined] is an [option T].
    - A [Map<string, V>] is a [gmap string V]. *)

From Stdlib Require Import ZArith Lia Ascii.
From Stdlib Require DecimalString DecimalZ DecimalPos.
From stdpp Require Import gmap strings list.

Local Open Scope Z_scope.

(** ** Results of fallible calls *)

Inductive result (A : Type) : Type :=
| Ok (value : A)
| Throw (message : string).

Arguments Ok {A} value.
Arguments Throw {A} message.

Definition throws {A : Type} (r : result A) : Prop :=
  match r with
  | Ok _ => False
  | Throw _ => True
  end.

(** ** The string primitives of the host language that the source calls *)

Module JsString.

Definition LF : ascii := "010"%char.
Definition CR : ascii := "013"%char.
Definition TAB : ascii := "009"%char.

(** [s.length] *)
Definition length (s : string) : Z := Z.of_nat (String.length s).

(** [s[i]]: [undefined] outside of the string. *)
Definition at_ (s : string) (i : Z) : option ascii :=
  if i <? 0 then None else String.get (Z.to_nat i) s.

(** [c === k] for [c] read by [s[i]] and [k] a one-character literal. *)
Definition is_char (c : option ascii) (k : ascii) : bool :=
  match c with
  | Some a => bool_decide (a = k)
  | None => false
  end.

(** [s.substring(start, end)]: both arguments are clamped to
    [0 .. s.length] and swapped when [start > end]. *)
Definition clamp (s : string) (i : Z) : Z := Z.min (Z.max i 0) (length s).

Definition substring (s : string) (start end_ : Z) : string :=
  let a := clamp s start in
  let b := clamp s end_ in
  let from := Z.min a b in
  let to := Z.max a b in
  String.substring (Z.to_nat from) (Z.to_nat (to - from)) s.

(** [s.substring(start)] *)
Definition substring_from (s : string) (start : Z) : string :=
  substring s start (length s).

(** [/[\n]/.test(s)]: some character of [s] is a line feed. *)
Fixpoint test_newline (s : string) : bool :=
  match s with
  | EmptyString => false
  | String c rest => bool_decide (c = LF) || test_newline rest
  end.

End JsString.

(** ** [ITextLocation] *)

Record ITextLocation : Type := { line : Z; column : Z }.

(** ** [TextRange] *)

Module TextRange.

Record t : Type := mk { buffer : string; pos : Z; end_ : Z }.

Definition _validateBounds (this : t) : result unit :=
  if pos this <? 0 then
    Throw "TextRange.pos cannot be negative"
  else if end_ this <? 0 then
    Throw "TextRange.end cannot be negative"
  else if end_ this <? pos this then
    Throw "TextRange.end cannot be smaller than TextRange.pos"
  else if pos this >? JsString.length (buffer this) then
    Throw "TextRange.pos cannot exceed the associated text buffer length"
  else if end_ this >? JsString.length (buffer this) then
    Throw "TextRange.end cannot exceed the associated text buffer length"
  else Ok tt.

(** The private constructor: the three fields are assigned, then the
    bounds are validated. *)
Definition new (buffer : string) (pos end_ : Z) : result t :=
  let this := mk buffer pos end_ in
  match _validateBounds this with
  | Ok _ => Ok this
  | Throw message => Throw message
  end.

Definition empty : result t := new "" 0 0.

Definition fromString (buffer : string) : result t :=
  new buffer 0 (JsString.length buffer).

Definition fromStringRange (buffer : string) (pos end_ : Z) : result t :=
  new buffer pos end_.

Definition length (this : t) : Z := end_ this - pos this.

Definition getNewRange (this : t) (pos end_ : Z) : result t :=
  new (buffer this) pos end_.

Definition isEmpty (this : t) : bool := pos this =? end_ this.

Definition toString (this : t) : string :=
  JsString.substring (buffer this) (pos this) (end_ this).

Definition getDebugDump (this : t) (posDelimiter endDelimiter : string) : string :=
  JsString.substring (buffer this) 0 (pos this)
  +:+ posDelimiter
  +:+ JsString.substring (buffer this) (pos this) (end_ this)
  +:+ endDelimiter
  +:+ JsString.substring_from (buffer this) (end_ this).

(** The [while (currentIndex < index)] loop of [getLocation].  The loop
    condition is tested first; [fuel] bounds the number of iterations and
    [None] means that it ran out. *)
Fixpoint getLocation_loop (fuel : nat) (buffer : string) (index : Z)
    (currentIndex line column : Z) : option ITextLocation :=
  if currentIndex <? index then
    match fuel with
    | O => None
    | S fuel' =>
        let current := JsString.at_ buffer currentIndex in
        let currentIndex := currentIndex + 1 in
        if JsString.is_char current JsString.CR then
          getLocation_loop fuel' buffer index currentIndex line column
        else if JsString.is_char current JsString.LF then
          getLocation_loop fuel' buffer index currentIndex (line + 1) 1
        else
          getLocation_loop fuel' buffer index currentIndex line (column + 1)
    end
  else Some {| line := line; column := column |}.

Definition getLocation (this : t) (index : Z) : option ITextLocation :=
  if (index <? 0) || (index >? JsString.length (buffer this)) then
    Some {| line := 0; column := 0 |}
  else
    getLocation_loop (Z.to_nat index) (buffer this) index 0 1 1.

End TextRange.

(** ** [ExcerptKind] and [DocExcerpt] *)

Module ExcerptKind.

(** The members of the enumeration that the three files name. *)
Inductive t : Type :=
| DocMemberSymbol_LeftBracket
| DocMemberSymbol_RightBracket
| InlineTag_TagContent
| PlainText
| Spacing.

End ExcerptKind.

Module DocExcerpt.
Section WithTypes.
(** [TSDocConfiguration] and [TokenSequence] are imported by the three
    files and declared elsewhere: they are parameters here. *)
Variables TSDocConfiguration TokenSequence : Type.

(** Modelled from the spec: the class [DocExcerpt] of [nodes/DocExcerpt.ts],
    which is imported but not part of the three files.  An excerpt
    "associates a semantic role with an underlying" token sequence; the
    fields are the ones the callers pass to its constructor and read back
    ([content]). *)
Record t : Type := mk {
  configuration : TSDocConfiguration;
  excerptKind : ExcerptKind.t;
  content : TokenSequence
}.
End WithTypes.

Arguments mk {TSDocConfiguration TokenSequence} configuration excerptKind content.
Arguments configuration {TSDocConfiguration TokenSequence} _.
Arguments excerptKind {TSDocConfiguration TokenSequence} _.
Arguments content {TSDocConfiguration TokenSequence} _.
End DocExcerpt.

(** ** [DocNode] *)

Module DocNode.
Section WithTypes.
Variables TSDocConfiguration TokenSequence DocDeclarationReference : Type.

(** The kinds of node that occur as children in [DocMemberSymbol] and
    [DocPlainText]; an entry of a child list is [DocNode | undefined]. *)
Inductive t : Type :=
| Excerpt (node : DocExcerpt.t TSDocConfiguration TokenSequence)
| DeclarationReference (node : DocDeclarationReference).

Definition child : Type := option t.

(** Modelled from the spec: [DocNode.getChildNodes] is declared in
    [nodes/DocNode.ts], which is not part of the three files.  The spec
    describes its result as "ordered, may contain holes for absent
    optional children, which walkers must skip": the list that the
    node's [onGetChildNodes] override returns, holes included. *)
Definition getChildNodes {Node : Type} (onGetChildNodes : Node -> list child)
    (this : Node) : list child :=
  onGetChildNodes this.
End WithTypes.

Arguments Excerpt {TSDocConfiguration TokenSequence DocDeclarationReference} node.
Arguments DeclarationReference {TSDocConfiguration TokenSequence DocDeclarationReference} node.
Arguments getChildNodes {TSDocConfiguration TokenSequence DocDeclarationReference Node}
onGetChildNodes this.
End DocNode.

(** ** [DocMemberSymbol] *)

Module DocMemberSymbol.
Section WithTypes.
Variables TSDocConfiguration TokenSequence DocDeclarationReference : Type.

(** The constructor argument [IDocMemberSymbolParameters |
    IDocMemberSymbolParsedParameters]; [DocNode.isParsedParameters]
    tells the two shapes apart. *)
Inductive parameters : Type :=
| IDocMemberSymbolParameters
    (configuration : TSDocConfiguration)
    (symbolReference : DocDeclarationReference)
| IDocMemberSymbolParsedParameters
    (configuration : TSDocConfiguration)
    (leftBracketExcerpt : TokenSequence)
    (spacingAfterLeftBracketExcerpt : option TokenSequence)
    (symbolReference : DocDeclarationReference)
    (rightBracketExcerpt : TokenSequence).

Record t : Type := mk {
  configuration : TSDocConfiguration;
  _leftBracketExcerpt : option (DocExcerpt.t TSDocConfiguration TokenSequence);
  _spacingAfterLeftBracketExcerpt : option (DocExcerpt.t TSDocConfiguration TokenSequence);
  _symbolReference : DocDeclarationReference;
  _rightBracketExcerpt : option (DocExcerpt.t TSDocConfiguration TokenSequence)
}.

Definition new (parameters : parameters) : t :=
  match parameters with
  | IDocMemberSymbolParsedParameters configuration leftBracketExcerpt
      spacingAfterLeftBracketExcerpt symbolReference rightBracketExcerpt =>
      {| configuration := configuration;
         _leftBracketExcerpt :=
           Some (DocExcerpt.mk configuration
                   ExcerptKind.DocMemberSymbol_LeftBracket leftBracketExcerpt);
         _spacingAfterLeftBracketExcerpt :=
           match spacingAfterLeftBracketExcerpt with
           | Some spacing =>
               Some (DocExcerpt.mk configuration ExcerptKind.Spacing spacing)
           | None => None
           end;
         _symbolReference := symbolReference;
         _rightBracketExcerpt :=
           Some (DocExcerpt.mk configuration
                   ExcerptKind.DocMemberSymbol_RightBracket rightBracketExcerpt) |}
  | IDocMemberSymbolParameters configuration symbolReference =>
      {| configuration := configuration;
         _leftBracketExcerpt := None;
         _spacingAfterLeftBracketExcerpt := None;
         _symbolReference := symbolReference;
         _rightBracketExcerpt := None |}
  end.

Definition symbolReference (this : t) : DocDeclarationReference :=
  _symbolReference this.

Definition onGetChildNodes (this : t)
    : list (DocNode.child TSDocConfiguration TokenSequence DocDeclarationReference) :=
  [ DocNode.Excerpt <$> _leftBracketExcerpt this;
    DocNode.Excerpt <$> _spacingAfterLeftBracketExcerpt this;
    Some (DocNode.DeclarationReference (_symbolReference this));
    DocNode.Excerpt <$> _rightBracketExcerpt this ].
End WithTypes.

Arguments IDocMemberSymbolParameters {TSDocConfiguration TokenSequence
DocDeclarationReference} configuration symbolReference.
Arguments IDocMemberSymbolParsedParameters {TSDocConfiguration TokenSequence
DocDeclarationReference} configuration leftBracketExcerpt
spacingAfterLeftBracketExcerpt symbolReference rightBracketExcerpt.
Arguments new {TSDocConfiguration TokenSequence DocDeclarationReference} parameters.
Arguments symbolReference {TSDocConfiguration TokenSequence DocDeclarationReference} this.
Arguments onGetChildNodes {TSDocConfiguration TokenSequence DocDeclarationReference} this.
End DocMemberSymbol.

(** ** [DocPlainText] *)

Module DocPlainText.
Section WithTypes.
Variables TSDocConfiguration TokenSequence DocDeclarationReference : Type.

(** [TokenSequence.toString], declared in [parser/TokenSequence.ts]. *)
Variable TokenSequence_toString : TokenSequence -> string.

(** The constructor argument [IDocPlainTextParameters |
    IDocPlainTextParsedParameters]. *)
Inductive parameters : Type :=
| IDocPlainTextParameters
    (configuration : TSDocConfiguration)
    (text : string)
| IDocPlainTextParsedParameters
    (configuration : TSDocConfiguration)
    (textExcerpt : TokenSequence).

(** [_text] is the only field that is not [readonly]. *)
Record t : Type := mk {
  configuration : TSDocConfiguration;
  _text : option string;
  _textExcerpt : option (DocExcerpt.t TSDocConfiguration TokenSequence)
}.

Definition _newlineCharacterRegExp_test (text : string) : bool :=
  JsString.test_newline text.

Definition new (parameters : parameters) : result t :=
  match parameters with
  | IDocPlainTextParsedParameters configuration textExcerpt =>
      Ok {| configuration := configuration;
            _text := None;
            _textExcerpt :=
              Some (DocExcerpt.mk configuration ExcerptKind.PlainText textExcerpt) |}
  | IDocPlainTextParameters configuration text =>
      if _newlineCharacterRegExp_test text then
        Throw "The DocPlainText content must not contain newline characters"
      else
        Ok {| configuration := configuration;
              _text := Some text;
              _textExcerpt := None |}
  end.

(** The getter [text] may assign [_text]: it returns its value together
    with the node after the call.  The [!] of [this._textExcerpt!] is erased
    by the compiler, so reading [content] of an absent excerpt is a
    [TypeError]. *)
Definition text (this : t) : result (string * t) :=
  match _text this with
  | None =>
      match _textExcerpt this with
      | Some excerpt =>
          let computed := TokenSequence_toString (DocExcerpt.content excerpt) in
          Ok (computed,
              {| configuration := configuration this;
                 _text := Some computed;
                 _textExcerpt := _textExcerpt this |})
      | None => Throw "TypeError: Cannot read properties of undefined"
      end
  | Some cached => Ok (cached, this)
  end.

Definition textExcerpt (this : t) : option TokenSequence :=
  match _textExcerpt this with
  | Some excerpt => Some (DocExcerpt.content excerpt)
  | None => None
  end.

Definition onGetChildNodes (this : t)
    : list (DocNode.child TSDocConfiguration TokenSequence DocDeclarationReference) :=
  [ DocNode.Excerpt <$> _textExcerpt this ].

(** [n] successive reads of [text], threading the node; the values read
    are returned in order. *)
Fixpoint text_repeat (n : nat) (this : t) : result (list string * t) :=
  match n with
  | O => Ok ([], this)
  | S n' =>
      match text this with
      | Ok (value, this') =>
          match text_repeat n' this' with
          | Ok (values, this'') => Ok (value :: values, this'')
          | Throw message => Throw message
          end
      | Throw message => Throw message
      end
  end.
End WithTypes.

Arguments IDocPlainTextParameters {TSDocConfiguration TokenSequence} configuration text.
Arguments IDocPlainTextParsedParameters {TSDocConfiguration TokenSequence}
  configuration textExcerpt.
Arguments mk {TSDocConfiguration TokenSequence} configuration _text _textExcerpt.
Arguments configuration {TSDocConfiguration TokenSequence} _.
Arguments _text {TSDocConfiguration TokenSequence} _.
Arguments _textExcerpt {TSDocConfiguration TokenSequence} _.
Arguments new {TSDocConfiguration TokenSequence} parameters.
Arguments text {TSDocConfiguration TokenSequence} TokenSequence_toString this.
Arguments text_repeat {TSDocConfiguration TokenSequence} TokenSequence_toString n this.
Arguments textExcerpt {TSDocConfiguration TokenSequence} this.
Arguments onGetChildNodes {TSDocConfiguration TokenSequence} DocDeclarationReference this.
End DocPlainText.

(** ** [DocParamCollection] *)

Module DocParamCollection.
Section WithTypes.
Variables TSDocConfiguration DocParamBlock : Type.

(** [DocParamBlock.parameterName], declared in [nodes/DocParamBlock.ts]. *)
Variable parameterName : DocParamBlock -> string.

Record t : Type := mk {
  configuration : TSDocConfiguration;
  _blocks : list DocParamBlock;
  _blocksByName : option (gmap string DocParamBlock)
}.

Definition new (configuration : TSDocConfiguration) : t :=
  {| configuration := configuration; _blocks := []; _blocksByName := None |}.

(** [[Symbol.iterator]()]: the elements the array iterator of [_blocks]
    yields, in the order it yields them. *)
Definition iterator (this : t) : list DocParamBlock := _blocks this.

Definition blocks (this : t) : list DocParamBlock := _blocks this.

Definition count (this : t) : Z := Z.of_nat (length (_blocks this)).

Definition add (this : t) (docParamBlock : DocParamBlock) : t :=
  let _blocks' := _blocks this ++ [docParamBlock] in
  let allocated :=
    match _blocksByName this with
    | None => ∅
    | Some blocksByName => blocksByName
    end in
  let blocksByName' :=
    if bool_decide (is_Some (allocated !! parameterName docParamBlock)) then
      allocated
    else
      <[parameterName docParamBlock := docParamBlock]> allocated in
  {| configuration := configuration this;
     _blocks := _blocks';
     _blocksByName := Some blocksByName' |}.

Definition clear (this : t) : t :=
  {| configuration := configuration this;
     _blocks := [];
     _blocksByName := None |}.

Definition tryGetBlockByName (this : t) (parameterName : string)
    : option DocParamBlock :=
  match _blocksByName this with
  | Some blocksByName => blocksByName !! parameterName
  | None => None
  end.

(** A sequence of [add] calls, first to last. *)
Definition add_all (this : t) (docParamBlocks : list DocParamBlock) : t :=
  foldl add this docParamBlocks.
End WithTypes.

Arguments mk {TSDocConfiguration DocParamBlock} configuration _blocks _blocksByName.
Arguments configuration {TSDocConfiguration DocParamBlock} _.
Arguments _blocks {TSDocConfiguration DocParamBlock} _.
Arguments _blocksByName {TSDocConfiguration DocParamBlock} _.
Arguments new {TSDocConfiguration} DocParamBlock configuration.
Arguments iterator {TSDocConfiguration DocParamBlock} this.
Arguments blocks {TSDocConfiguration DocParamBlock} this.
Arguments count {TSDocConfiguration DocParamBlock} this.
Arguments add {TSDocConfiguration DocParamBlock} parameterName this docParamBlock.
Arguments clear {TSDocConfiguration DocParamBlock} this.
Arguments tryGetBlockByName {TSDocConfiguration DocParamBlock} this parameterName.
Arguments add_all {TSDocConfiguration DocParamBlock} parameterName this docParamBlocks.
End DocParamCollection.


(** ** Sequences of calls on a [DocParamCollection] *)

Module DocParamCollectionCalls.
Section WithTypes.
Variables TSDocConfiguration DocParamBlock : Type.
Variable parameterName : DocParamBlock -> string.

(** The two methods that change a collection. *)
Inductive call : Type :=
| Add (docParamBlock : DocParamBlock)
| Clear.

Definition perform (this : DocParamCollection.t TSDocConfiguration DocParamBlock)
    (c : call) : DocParamCollection.t TSDocConfiguration DocParamBlock :=
  match c with
  | Add docParamBlock => DocParamCollection.add parameterName this docParamBlock
  | Clear => DocParamCollection.clear this
  end.

(** The calls are performed first to last. *)
Definition perform_all (this : DocParamCollection.t TSDocConfiguration DocParamBlock)
    (calls : list call) : DocParamCollection.t TSDocConfiguration DocParamBlock :=
  foldl perform this calls.

Definition is_clear (c : call) : bool :=
  match c with
  | Clear => true
  | Add _ => false
  end.

(** The blocks that a sequence of calls adds after its last [Clear] (after
    its start when it has none), in the order of the calls. *)
Fixpoint added_since_clear (calls : list call) : list DocParamBlock :=
  match calls with
  | [] => []
  | c :: rest =>
      if existsb is_clear rest then added_since_clear rest
      else match c with
           | Add docParamBlock => docParamBlock :: added_since_clear rest
           | Clear => added_since_clear rest
           end
  end.
End WithTypes.

Arguments Add {DocParamBlock} docParamBlock.
Arguments Clear {DocParamBlock}.
Arguments perform {TSDocConfiguration DocParamBlock} parameterName this c.
Arguments perform_all {TSDocConfiguration DocParamBlock} parameterName this calls.
Arguments is_clear {DocParamBlock} c.
Arguments added_since_clear {DocParamBlock} calls.
End DocParamCollectionCalls.

(** ** [DocInlineTag] *)

Module DocInlineTag.
Section WithTypes.
Variables TSDocConfiguration TokenSequence DocDeclarationReference : Type.

(** [TokenSequence.toString], declared in [parser/TokenSequence.ts]. *)
Variable TokenSequence_toString : TokenSequence -> string.

(** The base class [DocInlineTagBase] is declared in
    [nodes/DocInlineTagBase.ts]: the members that the two parameter shapes
    and the node inherit from it are parameters here, with the base
    constructor that [super(parameters)] runs and the inherited
    [configuration] getter. *)
Variables IDocInlineTagBaseParameters IDocInlineTagBaseParsedParameters : Type.
Variable DocInlineTagBase : Type.
Variable DocInlineTagBase_new :
  IDocInlineTagBaseParameters + IDocInlineTagBaseParsedParameters ->
  result DocInlineTagBase.
Variable DocInlineTagBase_configuration : DocInlineTagBase -> TSDocConfiguration.

(** The constructor argument [IDocInlineTagParameters |
    IDocInlineTagParsedParameters]. *)
Inductive parameters : Type :=
| IDocInlineTagParameters
    (inherited : IDocInlineTagBaseParameters)
    (tagContent : string)
| IDocInlineTagParsedParameters
    (inherited : IDocInlineTagBaseParsedParameters)
    (tagContentExcerpt : option TokenSequence).

Record t : Type := mk {
  base : DocInlineTagBase;
  _tagContent : option string;
  _tagContentExcerpt : option (DocExcerpt.t TSDocConfiguration TokenSequence)
}.

Definition new (parameters : parameters) : result t :=
  match parameters with
  | IDocInlineTagParsedParameters inherited tagContentExcerpt =>
      match DocInlineTagBase_new (inr inherited) with
      | Throw message => Throw message
      | Ok base =>
          Ok {| base := base;
                _tagContent := None;
                _tagContentExcerpt :=
                  match tagContentExcerpt with
                  | Some content =>
                      Some (DocExcerpt.mk (DocInlineTagBase_configuration base)
                              ExcerptKind.InlineTag_TagContent content)
                  | None => None
                  end |}
      end
  | IDocInlineTagParameters inherited tagContent =>
      match DocInlineTagBase_new (inl inherited) with
      | Throw message => Throw message
      | Ok base =>
          Ok {| base := base;
                _tagContent := Some tagContent;
                _tagContentExcerpt := None |}
      end
  end.

(** The getter [tagContent] may assign [_tagContent]: it returns its value
    together with the node after the call. *)
Definition tagContent (this : t) : string * t :=
  match _tagContent this with
  | None =>
      match _tagContentExcerpt this with
      | Some excerpt =>
          let computed := TokenSequence_toString (DocExcerpt.content excerpt) in
          (computed,
           {| base := base this;
              _tagContent := Some computed;
              _tagContentExcerpt := _tagContentExcerpt this |})
      | None => (EmptyString, this)
      end
  | Some cached => (cached, this)
  end.

Definition getChildNodesForContent (this : t)
    : list (DocNode.child TSDocConfiguration TokenSequence DocDeclarationReference) :=
  [ DocNode.Excerpt <$> _tagContentExcerpt this ].

(** [n] successive reads of [tagContent], threading the node. *)
Fixpoint tagContent_repeat (n : nat) (this : t) : list string * t :=
  match n with
  | O => ([], this)
  | S n' =>
      let (value, this') := tagContent this in
      let (values, this'') := tagContent_repeat n' this' in
      (value :: values, this'')
  end.
End WithTypes.

Arguments IDocInlineTagParameters {TokenSequence IDocInlineTagBaseParameters
  IDocInlineTagBaseParsedParameters} inherited tagContent.
Arguments IDocInlineTagParsedParameters {TokenSequence IDocInlineTagBaseParameters
  IDocInlineTagBaseParsedParameters} inherited tagContentExcerpt.
Arguments mk {TSDocConfiguration TokenSequence DocInlineTagBase}
  base _tagContent _tagContentExcerpt.
Arguments base {TSDocConfiguration TokenSequence DocInlineTagBase} _.
Arguments _tagContent {TSDocConfiguration TokenSequence DocInlineTagBase} _.
Arguments _tagContentExcerpt {TSDocConfiguration TokenSequence DocInlineTagBase} _.
Arguments new {TSDocConfiguration TokenSequence IDocInlineTagBaseParameters
  IDocInlineTagBaseParsedParameters DocInlineTagBase}
  DocInlineTagBase_new DocInlineTagBase_configuration parameters.
Arguments tagContent {TSDocConfiguration TokenSequence} TokenSequence_toString
  {DocInlineTagBase} this.
Arguments tagContent_repeat {TSDocConfiguration TokenSequence} TokenSequence_toString
  {DocInlineTagBase} n this.
Arguments getChildNodesForContent {TSDocConfiguration TokenSequence}
  DocDeclarationReference {DocInlineTagBase} this.
End DocInlineTag.

(** ** [DocHtmlView] of the playground: link text and example headings *)

Module DocHtmlView.

(** A value of type [string | undefined] is truthy when it is a non-empty
    string. *)
Definition truthy (value : option string) : bool :=
  match value with
  | Some (String _ _) => true
  | Some EmptyString => false
  | None => false
  end.

(** [value || fallback] *)
Definition or (value fallback : option string) : option string :=
  if truthy value then value else fallback.

(** The members of the tsdoc nodes that the ['LinkTag'] case of
    [_renderDocNode] reads. *)
Record DocMemberIdentifier : Type := { identifier : string }.

Record DocMemberReference : Type := {
  memberIdentifier : option DocMemberIdentifier
}.

Record DocDeclarationReference : Type := {
  memberReferences : list DocMemberReference
}.

Record DocLinkTag : Type := {
  urlDestination : option string;
  linkText : option string;
  codeDestination : option DocDeclarationReference
}.

(** The [linkText] that the ['LinkTag'] case of [_renderDocNode] puts
    inside the [<a>] element, in either branch. *)
Definition LinkTag_linkText (linkTag : DocLinkTag) : option string :=
  if truthy (urlDestination linkTag) then
    or (linkText linkTag) (urlDestination linkTag)
  else
    let identifier :=
      match codeDestination linkTag with
      | Some codeDestination =>
          let memberReferences := memberReferences codeDestination in
          if Z.of_nat (length memberReferences) >? 0 then
            match memberReferences !! Z.to_nat (Z.of_nat (length memberReferences) - 1) with
            | Some last =>
                match memberIdentifier last with
                | Some memberIdentifier => identifier memberIdentifier
                | None => EmptyString
                end
            | None => EmptyString
            end
          else EmptyString
      | None => EmptyString
      end in
    or (or (linkText linkTag) (Some identifier)) (Some "???").

(** [`${n}`] for an integer [n]: its decimal digits. *)
Definition Number_toString (n : Z) : string :=
  DecimalString.NilZero.string_of_int (Z.to_int n).

Section Examples.
(** [DocNodeContainer] is the type of [DocBlock.content];
    [StandardTags.example.tagNameWithUpperCase] is a constant of the
    library. *)
Variable DocNodeContainer : Type.
Variable StandardTags_example_tagNameWithUpperCase : string.

(** The members of [DocBlock] that [render] reads:
    [blockTag.tagNameWithUpperCase] and [content]. *)
Record DocBlock : Type := {
  blockTag_tagNameWithUpperCase : string;
  content : DocNodeContainer
}.

Definition exampleBlocks (customBlocks : list DocBlock) : list DocBlock :=
  filter (fun x => blockTag_tagNameWithUpperCase x
                   = StandardTags_example_tagNameWithUpperCase) customBlocks.

(** The loop [for (const exampleBlock of exampleBlocks)] of [render]: for
    each block, the heading and the container rendered under it. *)
Fixpoint example_sections (exampleBlocks_length exampleNumber : Z)
    (remaining : list DocBlock) : list (string * DocNodeContainer) :=
  match remaining with
  | [] => []
  | exampleBlock :: rest =>
      let heading :=
        if exampleBlocks_length >? 1
        then "Example " +:+ Number_toString exampleNumber
        else "Example" in
      (heading, content exampleBlock)
      :: example_sections exampleBlocks_length (exampleNumber + 1) rest
  end.

Definition render_examples (customBlocks : list DocBlock)
    : list (string * DocNodeContainer) :=
  let exampleBlocks := exampleBlocks customBlocks in
  example_sections (Z.of_nat (length exampleBlocks)) 1 exampleBlocks.
End Examples.

Arguments Build_DocBlock {DocNodeContainer} blockTag_tagNameWithUpperCase content.
Arguments blockTag_tagNameWithUpperCase {DocNodeContainer} _.
Arguments content {DocNodeContainer} _.
Arguments exampleBlocks {DocNodeContainer} StandardTags_example_tagNameWithUpperCase
  customBlocks.
Arguments example_sections {DocNodeContainer} exampleBlocks_length exampleNumber remaining.
Arguments render_examples {DocNodeContainer} StandardTags_example_tagNameWithUpperCase
  customBlocks.
End DocHtmlView.

(** ** Vocabulary of the statements *)

(** [text] contains the character [k]. *)
Definition contains_char (k : ascii) (text : string) : Prop :=
  exists i : nat, String.get i text = Some k.

(** The bounds that [TextRange] documents for its fields. *)
Definition in_bounds (buffer : string) (pos end_ : Z) : Prop :=
  0 <= pos /\ pos <= end_ /\ end_ <= JsString.length buffer.

Definition out_of_bounds (buffer : string) (pos end_ : Z) : Prop :=
  pos < 0 \/ end_ < 0 \/ end_ < pos
  \/ pos > JsString.length buffer \/ end_ > JsString.length buffer.

Definition TextRange_invariant (range : TextRange.t) : Prop :=
  in_bounds (TextRange.buffer range) (TextRange.pos range) (TextRange.end_ range).

(** The ranges that the public interface of [TextRange] can produce: the
    static [empty], the two static factories, and [getNewRange] called on a
    range obtained in the same way.  The constructor itself is private. *)
Inductive TextRange_constructed : TextRange.t -> Prop :=
| constructed_empty range :
    TextRange.empty = Ok range ->
    TextRange_constructed range
| constructed_fromString buffer range :
    TextRange.fromString buffer = Ok range ->
    TextRange_constructed range
| constructed_fromStringRange buffer pos end_ range :
    TextRange.fromStringRange buffer pos end_ = Ok range ->
    TextRange_constructed range
| constructed_getNewRange this pos end_ range :
    TextRange_constructed this ->
    TextRange.getNewRange this pos end_ = Ok range ->
    TextRange_constructed range.

(** The line and column rule in the words of the specification: a line
    feed starts the next line at column 1, a carriage return advances
    nothing, and any other character (a tab included) advances the column
    by one.  [LocationSpec.locate] applies the rule to a text from the
    1-based origin. *)
Module LocationSpec.

Definition origin : ITextLocation := {| line := 1; column := 1 |}.

Definition advance (location : ITextLocation) (c : ascii) : ITextLocation :=
  if bool_decide (c = JsString.LF) then
    {| line := line location + 1; column := 1 |}
  else if bool_decide (c = JsString.CR) then
    location
  else
    {| line := line location; column := column location + 1 |}.

Fixpoint walk (location : ITextLocation) (text : string) : ITextLocation :=
  match text with
  | EmptyString => location
  | String c rest => walk (advance location c) rest
  end.

Definition locate (text : string) : ITextLocation := walk origin text.

(** The number of occurrences of [k] in [text]. *)
Fixpoint count_char (k : ascii) (text : string) : Z :=
  match text with
  | EmptyString => 0
  | String c rest => (if bool_decide (c = k) then 1 else 0) + count_char k rest
  end.

End LocationSpec.

(** [text] without its carriage returns. *)
Fixpoint without_CR (text : string) : string :=
  match text with
  | EmptyString => EmptyString
  | String c rest =>
      if bool_decide (c = JsString.CR) then without_CR rest
      else String c (without_CR rest)
  end.

(** * Properties *)

(** ** Strings *)

Lemma string_substring_zero (n : nat) (s : string) :
  String.substring n 0 s = EmptyString.
Proof.
  revert n; induction s as [|c s IH]; intros [|n]; simpl; auto.
Qed.

Lemma string_substring_step (s : string) (n m : nat) (c : ascii) :
  String.get n s = Some c ->
  String.substring n (S m) s = String c (String.substring (S n) m s).
Proof.
  revert n; induction s as [|a s IH]; intros n Hget.
  - destruct n; discriminate.
  - destruct n as [|n]; simpl in Hget.
    + injection Hget as ->. simpl.
      destruct m, s; reflexivity.
    + simpl. rewrite (IH n Hget). reflexivity.
Qed.

Lemma string_get_in_range (s : string) (n : nat) :
  (n < String.length s)%nat -> exists c, String.get n s = Some c.
Proof.
  revert n; induction s as [|a s IH]; intros n Hn; simpl in Hn.
  - lia.
  - destruct n as [|n]; simpl; [eauto|]. apply IH. lia.
Qed.

Lemma string_substring_all (s : string) :
  String.substring 0 (String.length s) s = s.
Proof.
  induction s as [|a s IH]; simpl; [reflexivity|]. now rewrite IH.
Qed.

Lemma js_substring_in_bounds (s : string) (pos end_ : Z) :
  in_bounds s pos end_ ->
  JsString.substring s pos end_
  = String.substring (Z.to_nat pos) (Z.to_nat (end_ - pos)) s.
Proof.
  intros (H0 & H1 & H2). unfold JsString.substring, JsString.clamp.
  rewrite (Z.max_l pos 0), (Z.max_l end_ 0) by lia.
  rewrite (Z.min_l pos), (Z.min_l end_) by lia.
  rewrite Z.min_l, Z.max_r by lia. reflexivity.
Qed.

Lemma test_newline_spec (s : string) :
  JsString.test_newline s = true <-> contains_char JsString.LF s.
Proof.
  induction s as [|c s IH]; simpl.
  - split; [discriminate|]. intros [i Hi]. destruct i; discriminate.
  - rewrite orb_true_iff, bool_decide_eq_true, IH. split.
    + intros [->|[i Hi]]; [now exists 0%nat | now exists (S i)].
    + intros [[|i] Hi]; simpl in Hi.
      * left. congruence.
      * right. now exists i.
Qed.

(** ** [TextRange]: construction *)

Lemma validateBounds_throws (this : TextRange.t) :
  throws (TextRange._validateBounds this)
  <-> out_of_bounds (TextRange.buffer this) (TextRange.pos this) (TextRange.end_ this).
Proof.
  unfold TextRange._validateBounds, out_of_bounds.
  repeat (match goal with
          | |- context [?a <? ?b] => destruct (Z.ltb_spec a b)
          | |- context [?a >? ?b] => rewrite (Z.gtb_ltb a b); destruct (Z.ltb_spec b a)
          end; simpl; [intuition lia|]).
  intuition lia.
Qed.

Lemma new_throws (buffer : string) (pos end_ : Z) :
  throws (TextRange.new buffer pos end_) <-> out_of_bounds buffer pos end_.
Proof.
  unfold TextRange.new.
  rewrite <- (validateBounds_throws (TextRange.mk buffer pos end_)).
  destruct (TextRange._validateBounds _); simpl; tauto.
Qed.

Lemma new_in_bounds (buffer : string) (pos end_ : Z) :
  in_bounds buffer pos end_ ->
  TextRange.new buffer pos end_ = Ok (TextRange.mk buffer pos end_).
Proof.
  intros Hin. pose proof (new_throws buffer pos end_) as Hthrows.
  unfold TextRange.new in *.
  destruct (TextRange._validateBounds _); [reflexivity|].
  exfalso. unfold in_bounds, out_of_bounds in *. simpl in Hthrows.
  destruct Hthrows as [Hthrows _]. specialize (Hthrows I). lia.
Qed.

Lemma new_Ok (buffer : string) (pos end_ : Z) (range : TextRange.t) :
  TextRange.new buffer pos end_ = Ok range ->
  range = TextRange.mk buffer pos end_ /\ in_bounds buffer pos end_.
Proof.
  intros Hnew.
  assert (Hnot : ~ out_of_bounds buffer pos end_).
  { rewrite <- new_throws, Hnew. simpl. tauto. }
  assert (Hin : in_bounds buffer pos end_).
  { unfold in_bounds, out_of_bounds in *. lia. }
  rewrite (new_in_bounds _ _ _ Hin) in Hnew. split; congruence.
Qed.

(** C1.  [fromStringRange(buffer, pos, end)] and [getNewRange(pos, end)]
    throw exactly when [pos < 0], [end < 0], [end < pos], [pos > length] or
    [end > length]; when [0 <= pos <= end <= length] they return a range
    whose [toString()] is [buffer.substring(pos, end)], the [end - pos]
    characters of the buffer that start at offset [pos]. *)
Theorem TextRange_construction (this : TextRange.t) (pos end_ : Z) :
  let buffer := TextRange.buffer this in
  (throws (TextRange.fromStringRange buffer pos end_)
     <-> out_of_bounds buffer pos end_)
  /\ (throws (TextRange.getNewRange this pos end_)
     <-> out_of_bounds buffer pos end_)
  /\ (in_bounds buffer pos end_ ->
      exists range,
        TextRange.fromStringRange buffer pos end_ = Ok range
        /\ TextRange.getNewRange this pos end_ = Ok range
        /\ TextRange.toString range = JsString.substring buffer pos end_
        /\ TextRange.toString range
           = String.substring (Z.to_nat pos) (Z.to_nat (end_ - pos)) buffer).
Proof.
  intros buffer. unfold TextRange.fromStringRange, TextRange.getNewRange.
  fold buffer. split; [apply new_throws|]. split; [apply new_throws|].
  intros Hin. exists (TextRange.mk buffer pos end_).
  rewrite (new_in_bounds _ _ _ Hin). unfold TextRange.toString; simpl.
  rewrite (js_substring_in_bounds _ _ _ Hin). auto.
Qed.

Lemma TextRange_construction_witness :
  in_bounds "1234567" 2 5
  /\ exists range,
       TextRange.fromStringRange "1234567" 2 5 = Ok range
       /\ TextRange.toString range = "345".
Proof.
  assert (Hin : in_bounds "1234567" 2 5) by (vm_compute; intuition discriminate).
  split; [exact Hin|].
  destruct (TextRange_construction (TextRange.mk "1234567" 0 0) 2 5)
    as (_ & _ & Hok).
  destruct (Hok Hin) as (range & Hnew & _ & _ & Hstr).
  exists range. split; [exact Hnew|]. rewrite Hstr. reflexivity.
Defined.

(** ** [TextRange]: the invariant *)

Lemma constructed_in_bounds (range : TextRange.t) :
  TextRange_constructed range -> TextRange_invariant range.
Proof.
  unfold TextRange_invariant.
  induction 1 as [range H|buffer range H|buffer pos end_ range H
                 |this pos end_ range _ _ H];
    apply new_Ok in H as [-> Hin]; exact Hin.
Qed.

(** C7.  Every range obtained from the public interface satisfies
    [0 <= pos <= end <= length(buffer)]; [length] is [end - pos], and
    [isEmpty()] is true exactly when [pos] equals [end].  The methods are
    functions of the receiver: the three fields are [readonly] and the only
    operation that yields a range, [getNewRange], builds a new one, which is
    again in [TextRange_constructed]. *)
Theorem TextRange_invariant_holds (range : TextRange.t) :
  TextRange_constructed range ->
  TextRange_invariant range
  /\ TextRange.length range = TextRange.end_ range - TextRange.pos range
  /\ 0 <= TextRange.length range <= JsString.length (TextRange.buffer range)
  /\ (TextRange.isEmpty range = true <-> TextRange.pos range = TextRange.end_ range)
  /\ (forall pos end_ range',
        TextRange.getNewRange range pos end_ = Ok range' ->
        TextRange_invariant range'
        /\ TextRange.buffer range' = TextRange.buffer range).
Proof.
  intros Hc. pose proof (constructed_in_bounds _ Hc) as Hin.
  split; [exact Hin|]. split; [reflexivity|].
  unfold TextRange_invariant, in_bounds, TextRange.length, TextRange.isEmpty in *.
  split; [lia|]. split; [apply Z.eqb_eq|].
  intros pos end_ range' Hnew.
  apply new_Ok in Hnew as [-> Hin']. simpl. split; [exact Hin'|reflexivity].
Qed.

Lemma TextRange_invariant_holds_witness :
  TextRange_constructed (TextRange.mk "12[345]67" 3 6)
  /\ TextRange.length (TextRange.mk "12[345]67" 3 6) = 3.
Proof.
  assert (Hc : TextRange_constructed (TextRange.mk "12[345]67" 3 6)).
  { apply (constructed_fromStringRange "12[345]67" 3 6). reflexivity. }
  split; [exact Hc|].
  destruct (TextRange_invariant_holds _ Hc) as (_ & Hlen & _).
  rewrite Hlen. reflexivity.
Defined.

(** ** [TextRange.getLocation] *)

Lemma advance_CR (location : ITextLocation) :
  LocationSpec.advance location JsString.CR = location.
Proof. reflexivity. Qed.

Lemma advance_LF (location : ITextLocation) :
  LocationSpec.advance location JsString.LF
  = {| line := line location + 1; column := 1 |}.
Proof. reflexivity. Qed.

Lemma advance_other (location : ITextLocation) (c : ascii) :
  c <> JsString.CR -> c <> JsString.LF ->
  LocationSpec.advance location c
  = {| line := line location; column := column location + 1 |}.
Proof.
  intros Hcr Hlf. unfold LocationSpec.advance.
  rewrite !bool_decide_eq_false_2 by assumption. reflexivity.
Qed.

(** One iteration of the loop body is one application of the rule. *)
Lemma getLocation_loop_step (fuel : nat) (buffer : string) (index : Z)
    (currentIndex ln col : Z) (c : ascii) :
  currentIndex < index ->
  JsString.at_ buffer currentIndex = Some c ->
  TextRange.getLocation_loop (S fuel) buffer index currentIndex ln col
  = let next := LocationSpec.advance {| line := ln; column := col |} c in
    TextRange.getLocation_loop fuel buffer index (currentIndex + 1)
      (line next) (column next).
Proof.
  intros Hlt Hat. simpl.
  destruct (Z.ltb_spec currentIndex index); [|lia].
  rewrite Hat. unfold JsString.is_char.
  destruct (decide (c = JsString.CR)) as [->|Hcr].
  - reflexivity.
  - rewrite (bool_decide_eq_false_2 _ Hcr).
    destruct (decide (c = JsString.LF)) as [->|Hlf].
    + reflexivity.
    + rewrite (bool_decide_eq_false_2 _ Hlf).
      rewrite (advance_other _ _ Hcr Hlf). reflexivity.
Qed.

(** With at least [index - currentIndex] iterations allowed, the loop
    returns, and its result is the rule applied to the characters from
    [currentIndex] up to [index]. *)
Lemma getLocation_loop_walk (fuel : nat) (buffer : string) (index : Z) :
  index <= JsString.length buffer ->
  forall currentIndex ln col : Z,
    0 <= currentIndex <= index ->
    (Z.to_nat (index - currentIndex) <= fuel)%nat ->
    TextRange.getLocation_loop fuel buffer index currentIndex ln col
    = Some (LocationSpec.walk {| line := ln; column := col |}
              (String.substring (Z.to_nat currentIndex)
                 (Z.to_nat (index - currentIndex)) buffer)).
Proof.
  intros Hlen. induction fuel as [|fuel IH]; intros currentIndex ln col Hcur Hfuel.
  - assert (currentIndex = index) as -> by lia.
    simpl. rewrite Z.ltb_irrefl, Z.sub_diag, string_substring_zero. reflexivity.
  - destruct (Z.eq_dec currentIndex index) as [->|Hne].
    + simpl. rewrite Z.ltb_irrefl, Z.sub_diag, string_substring_zero. reflexivity.
    + destruct (string_get_in_range buffer (Z.to_nat currentIndex)) as [c Hc].
      { unfold JsString.length in Hlen. lia. }
      assert (Hat : JsString.at_ buffer currentIndex = Some c).
      { unfold JsString.at_. destruct (Z.ltb_spec currentIndex 0); [lia|exact Hc]. }
      rewrite (getLocation_loop_step _ _ _ _ _ _ c) by (lia || exact Hat).
      cbv zeta. rewrite IH by lia.
      replace (Z.to_nat (index - currentIndex))
        with (S (Z.to_nat (index - (currentIndex + 1)))) by lia.
      rewrite (string_substring_step _ _ _ _ Hc).
      replace (Z.to_nat (currentIndex + 1)) with (S (Z.to_nat currentIndex)) by lia.
      simpl. destruct (LocationSpec.advance _ c); reflexivity.
Qed.

Lemma walk_line (text : string) (location : ITextLocation) :
  line (LocationSpec.walk location text)
  = line location + LocationSpec.count_char JsString.LF text.
Proof.
  revert location; induction text as [|c text IH]; intros location; simpl.
  - lia.
  - rewrite IH. unfold LocationSpec.advance.
    destruct (bool_decide (c = JsString.LF)) eqn:Hlf; simpl; [lia|].
    destruct (bool_decide (c = JsString.CR)); simpl; lia.
Qed.

Lemma getLocation_out_of_range (this : TextRange.t) (index : Z) :
  index < 0 \/ index > JsString.length (TextRange.buffer this) ->
  TextRange.getLocation this index = Some {| line := 0; column := 0 |}.
Proof.
  intros Hout. unfold TextRange.getLocation.
  destruct (Z.ltb_spec index 0); [reflexivity|].
  rewrite Z.gtb_ltb. destruct (Z.ltb_spec (JsString.length (TextRange.buffer this)) index);
    [reflexivity|lia].
Qed.

Lemma getLocation_in_range (this : TextRange.t) (index : Z) :
  0 <= index <= JsString.length (TextRange.buffer this) ->
  TextRange.getLocation this index
  = Some (LocationSpec.locate (JsString.substring (TextRange.buffer this) 0 index)).
Proof.
  intros Hin. unfold TextRange.getLocation.
  destruct (Z.ltb_spec index 0); [lia|].
  rewrite Z.gtb_ltb. destruct (Z.ltb_spec (JsString.length (TextRange.buffer this)) index);
    [lia|]. simpl.
  rewrite getLocation_loop_walk by lia.
  rewrite js_substring_in_bounds by (unfold in_bounds; lia).
  rewrite Z.sub_0_r. reflexivity.
Qed.

(** [getLocation] returns for every range and every index. *)
Lemma getLocation_total (this : TextRange.t) (index : Z) :
  exists location, TextRange.getLocation this index = Some location.
Proof.
  destruct (Z.lt_ge_cases index 0) as [Hneg|Hpos].
  - rewrite getLocation_out_of_range by lia. eauto.
  - destruct (Z.le_gt_cases index (JsString.length (TextRange.buffer this))).
    + rewrite getLocation_in_range by lia. eauto.
    + rewrite getLocation_out_of_range by lia. eauto.
Qed.

Lemma string_substring_snoc (s : string) (n : nat) (c : ascii) :
  String.get n s = Some c ->
  String.substring 0 (S n) s = String.substring 0 n s +:+ String c EmptyString.
Proof.
  revert n; induction s as [|a s IH]; intros n Hget.
  - destruct n; discriminate.
  - destruct n as [|n]; simpl in Hget.
    + injection Hget as ->. simpl. now rewrite string_substring_zero.
    + change (String.substring 0 (S (S n)) (String a s))
        with (String a (String.substring 0 (S n) s)).
      rewrite (IH n Hget). reflexivity.
Qed.

Lemma walk_app (a b : string) (location : ITextLocation) :
  LocationSpec.walk location (a +:+ b)
  = LocationSpec.walk (LocationSpec.walk location a) b.
Proof.
  revert location; induction a as [|c a IH]; intros location; [reflexivity|].
  change (String c a +:+ b) with (String c (a +:+ b)). simpl. apply IH.
Qed.

Lemma count_char_nonneg (k : ascii) (text : string) :
  0 <= LocationSpec.count_char k text.
Proof.
  induction text as [|c text IH]; simpl; [lia|].
  destruct (bool_decide (c = k)); lia.
Qed.

Lemma walk_column (text : string) (location : ITextLocation) :
  1 <= column location -> 1 <= column (LocationSpec.walk location text).
Proof.
  revert location; induction text as [|c text IH]; intros location Hcol; simpl.
  - exact Hcol.
  - apply IH. unfold LocationSpec.advance.
    destruct (bool_decide (c = JsString.LF)); simpl; [lia|].
    destruct (bool_decide (c = JsString.CR)); simpl; lia.
Qed.

(** Moving the index over one more character applies the rule once. *)
Lemma getLocation_next (this : TextRange.t) (index : Z) (c : ascii) :
  0 <= index ->
  JsString.at_ (TextRange.buffer this) index = Some c ->
  TextRange.getLocation this (index + 1)
  = (fun location => LocationSpec.advance location c)
    <$> TextRange.getLocation this index.
Proof.
  intros Hpos Hat. unfold JsString.at_ in Hat.
  destruct (Z.ltb_spec index 0); [lia|].
  assert (Hlt : (Z.to_nat index < String.length (TextRange.buffer this))%nat).
  { destruct (Nat.lt_ge_cases (Z.to_nat index) (String.length (TextRange.buffer this)))
      as [Hlt|Hge]; [exact Hlt|].
    exfalso. revert Hat Hge. generalize (Z.to_nat index) as n.
    induction (TextRange.buffer this) as [|a s IH]; intros n Hat Hge.
    - destruct n; discriminate.
    - destruct n as [|n]; simpl in *; [lia|]. apply (IH n Hat). lia. }
  rewrite !getLocation_in_range by (unfold JsString.length; lia).
  rewrite !js_substring_in_bounds by (unfold in_bounds, JsString.length; lia).
  rewrite !Z.sub_0_r. change (Z.to_nat 0) with 0%nat.
  replace (Z.to_nat (index + 1)) with (S (Z.to_nat index)) by lia.
  rewrite (string_substring_snoc _ _ _ Hat).
  unfold LocationSpec.locate. rewrite walk_app. reflexivity.
Qed.

(** C3, amended.  [getLocation(index)] returns [{line: 0, column: 0}] for
    every index outside [0 .. length(buffer)].  Index 0 of an empty buffer is
    inside that interval, and there [getLocation(0)] returns
    [{line: 1, column: 1}]. *)
Theorem getLocation_sentinel (this : TextRange.t) (index : Z) :
  (index < 0 \/ index > JsString.length (TextRange.buffer this) ->
   TextRange.getLocation this index = Some {| line := 0; column := 0 |})
  /\ (TextRange.buffer this = EmptyString ->
      TextRange.getLocation this 0 = Some {| line := 1; column := 1 |}).
Proof.
  split; [apply getLocation_out_of_range|].
  intros Hempty. unfold TextRange.getLocation. rewrite Hempty. reflexivity.
Qed.

Lemma getLocation_sentinel_witness :
  (5 > JsString.length "ab")
  /\ TextRange.getLocation (TextRange.mk "ab" 0 2) 5
     = Some {| line := 0; column := 0 |}
  /\ TextRange.getLocation (TextRange.mk "" 0 0) 0
     = Some {| line := 1; column := 1 |}.
Proof.
  assert (Hout : 5 > JsString.length "ab") by reflexivity.
  split; [exact Hout|]. split.
  - apply (getLocation_sentinel (TextRange.mk "ab" 0 2) 5). right. exact Hout.
  - apply (getLocation_sentinel (TextRange.mk "" 0 0) 0). reflexivity.
Defined.

(** C3 as stated fails: the range over the empty buffer is constructed, and
    [getLocation(0)] on it is [{line: 1, column: 1}], not the sentinel. *)
Lemma getLocation_empty_buffer_counterexample :
  TextRange.fromString "" = Ok (TextRange.mk "" 0 0)
  /\ TextRange.getLocation (TextRange.mk "" 0 0) 0
     = Some {| line := 1; column := 1 |}
  /\ TextRange.getLocation (TextRange.mk "" 0 0) 0
     <> Some {| line := 0; column := 0 |}.
Proof.
  split; [reflexivity|]. split; [reflexivity|]. discriminate.
Qed.

(** The sentinel is returned for no index inside [0 .. length(buffer)]. *)
Lemma getLocation_sentinel_only_out_of_range (this : TextRange.t) (index : Z) :
  TextRange.getLocation this index = Some {| line := 0; column := 0 |}
  <-> index < 0 \/ index > JsString.length (TextRange.buffer this).
Proof.
  split; [|apply getLocation_out_of_range].
  intros Hloc.
  destruct (Z.lt_ge_cases index 0) as [Hneg|Hpos]; [now left|].
  destruct (Z.le_gt_cases index (JsString.length (TextRange.buffer this)))
    as [Hle|Hgt]; [|right; lia].
  exfalso. rewrite getLocation_in_range in Hloc by lia.
  injection Hloc as Hline. apply (f_equal line) in Hline.
  unfold LocationSpec.locate in Hline.
  pose proof (walk_line (JsString.substring (TextRange.buffer this) 0 index)
                LocationSpec.origin) as Hwalk.
  pose proof (count_char_nonneg JsString.LF
                (JsString.substring (TextRange.buffer this) 0 index)).
  rewrite Hline in Hwalk. simpl in Hwalk. lia.
Qed.

(** C5.  For [0 <= index <= length(buffer)], [getLocation(index)] returns
    1-based coordinates: the rule of [LocationSpec] applied to the characters
    before [index].  The line is 1 plus the number of line feeds among them;
    stepping over a line feed moves to column 1 of the next line, stepping
    over a carriage return changes nothing, and stepping over any other
    character (a tab included) adds one to the column. *)
Theorem getLocation_line_column (this : TextRange.t) (index : Z) :
  0 <= index <= JsString.length (TextRange.buffer this) ->
  let before := JsString.substring (TextRange.buffer this) 0 index in
  exists location,
    TextRange.getLocation this index = Some location
    /\ location = LocationSpec.locate before
    /\ line location = 1 + LocationSpec.count_char JsString.LF before
    /\ 1 <= column location
    /\ (JsString.at_ (TextRange.buffer this) index = Some JsString.LF ->
        TextRange.getLocation this (index + 1)
        = Some {| line := line location + 1; column := 1 |})
    /\ (JsString.at_ (TextRange.buffer this) index = Some JsString.CR ->
        TextRange.getLocation this (index + 1) = Some location)
    /\ (forall c, c <> JsString.LF -> c <> JsString.CR ->
        JsString.at_ (TextRange.buffer this) index = Some c ->
        TextRange.getLocation this (index + 1)
        = Some {| line := line location; column := column location + 1 |}).
Proof.
  intros Hin before. exists (LocationSpec.locate before).
  pose proof (getLocation_in_range this index Hin) as Hloc. fold before in Hloc.
  split; [exact Hloc|]. split; [reflexivity|].
  split; [apply (walk_line before LocationSpec.origin)|].
  split; [apply walk_column; simpl; lia|].
  split; [|split].
  - intros Hat. rewrite (getLocation_next _ _ _ (proj1 Hin) Hat), Hloc. reflexivity.
  - intros Hat. rewrite (getLocation_next _ _ _ (proj1 Hin) Hat), Hloc. reflexivity.
  - intros c Hlf Hcr Hat.
    rewrite (getLocation_next _ _ _ (proj1 Hin) Hat), Hloc. simpl.
    rewrite (advance_other _ _ Hcr Hlf). reflexivity.
Qed.

Lemma getLocation_line_column_witness :
  (0 <= 6 <= JsString.length (String "a" (String JsString.TAB (String JsString.CR
      (String JsString.LF (String "b" (String "c" EmptyString)))))))
  /\ TextRange.getLocation
       (TextRange.mk (String "a" (String JsString.TAB (String JsString.CR
          (String JsString.LF (String "b" (String "c" EmptyString)))))) 0 6) 6
     = Some {| line := 2; column := 3 |}.
Proof.
  set (buffer := String "a" (String JsString.TAB (String JsString.CR
      (String JsString.LF (String "b" (String "c" EmptyString)))))).
  assert (Hin : 0 <= 6 <= JsString.length buffer) by (vm_compute; split; discriminate).
  split; [exact Hin|].
  destruct (getLocation_line_column (TextRange.mk buffer 0 6) 6 Hin)
    as (location & Hloc & -> & _).
  rewrite Hloc. reflexivity.
Defined.

(** ** [DocPlainText] *)

Lemma DocPlainText_new_throws {TSDocConfiguration TokenSequence : Type}
    (configuration : TSDocConfiguration) (text : string) :
  throws (DocPlainText.new
            (DocPlainText.IDocPlainTextParameters (TokenSequence := TokenSequence)
               configuration text))
  <-> contains_char JsString.LF text.
Proof.
  rewrite <- test_newline_spec. simpl.
  unfold DocPlainText._newlineCharacterRegExp_test.
  destruct (JsString.test_newline text); simpl; intuition discriminate.
Qed.

Lemma DocPlainText_new_literal {TSDocConfiguration TokenSequence : Type}
    (configuration : TSDocConfiguration) (text : string) :
  ~ contains_char JsString.LF text ->
  DocPlainText.new
    (DocPlainText.IDocPlainTextParameters (TokenSequence := TokenSequence)
       configuration text)
  = Ok (DocPlainText.mk configuration (Some text) None).
Proof.
  rewrite <- test_newline_spec. simpl.
  unfold DocPlainText._newlineCharacterRegExp_test.
  destruct (JsString.test_newline text); [tauto|reflexivity].
Qed.

(** C4.  Built from literal parameters, a [DocPlainText] whose text contains
    a line feed is refused with an error; for a text without line feed the
    construction succeeds and the getter [text] returns that text. *)
Theorem DocPlainText_literal_construction {TSDocConfiguration TokenSequence : Type}
    (TokenSequence_toString : TokenSequence -> string)
    (configuration : TSDocConfiguration) (text : string) :
  let parameters := DocPlainText.IDocPlainTextParameters configuration text in
  (contains_char JsString.LF text -> throws (DocPlainText.new parameters))
  /\ (~ contains_char JsString.LF text ->
      exists node,
        DocPlainText.new parameters = Ok node
        /\ DocPlainText.text TokenSequence_toString node = Ok (text, node)).
Proof.
  intros parameters. split.
  - apply DocPlainText_new_throws.
  - intros Hno. eexists. split; [apply (DocPlainText_new_literal _ _ Hno)|].
    reflexivity.
Qed.

Lemma DocPlainText_literal_construction_witness :
  contains_char JsString.LF (String "a" (String JsString.LF (String "b" EmptyString)))
  /\ throws (DocPlainText.new
               (DocPlainText.IDocPlainTextParameters (TokenSequence := string) tt
                  (String "a" (String JsString.LF (String "b" EmptyString)))))
  /\ ~ contains_char JsString.LF "a b"
  /\ exists node,
       DocPlainText.new
         (DocPlainText.IDocPlainTextParameters (TokenSequence := string) tt "a b")
       = Ok node
       /\ DocPlainText.text (fun s : string => s) node = Ok ("a b", node).
Proof.
  assert (Hlf : contains_char JsString.LF
                  (String "a" (String JsString.LF (String "b" EmptyString)))).
  { exists 1%nat. reflexivity. }
  assert (Hno : ~ contains_char JsString.LF "a b").
  { rewrite <- test_newline_spec. vm_compute. discriminate. }
  split; [exact Hlf|]. split.
  - apply (DocPlainText_literal_construction (fun s : string => s) tt _). exact Hlf.
  - split; [exact Hno|].
    apply (DocPlainText_literal_construction (fun s : string => s) tt "a b"). exact Hno.
Defined.

(** C10.  Only the line feed is refused: a text with a carriage return and
    no line feed is accepted, and [text] returns it unchanged. *)
Theorem DocPlainText_carriage_return_accepted {TSDocConfiguration TokenSequence : Type}
    (TokenSequence_toString : TokenSequence -> string)
    (configuration : TSDocConfiguration) (text : string) :
  contains_char JsString.CR text ->
  ~ contains_char JsString.LF text ->
  let parameters := DocPlainText.IDocPlainTextParameters configuration text in
  ~ throws (DocPlainText.new parameters)
  /\ exists node,
       DocPlainText.new parameters = Ok node
       /\ DocPlainText.text TokenSequence_toString node = Ok (text, node).
Proof.
  intros _ Hno parameters. subst parameters.
  rewrite (DocPlainText_new_literal _ _ Hno). split; [simpl; tauto|].
  eexists. split; reflexivity.
Qed.

Lemma DocPlainText_carriage_return_accepted_witness :
  contains_char JsString.CR (String "a" (String JsString.CR (String "b" EmptyString)))
  /\ ~ contains_char JsString.LF
         (String "a" (String JsString.CR (String "b" EmptyString)))
  /\ exists node,
       DocPlainText.new
         (DocPlainText.IDocPlainTextParameters (TokenSequence := string) tt
            (String "a" (String JsString.CR (String "b" EmptyString))))
       = Ok node
       /\ DocPlainText.text (fun s : string => s) node
          = Ok (String "a" (String JsString.CR (String "b" EmptyString)), node).
Proof.
  assert (Hcr : contains_char JsString.CR
                  (String "a" (String JsString.CR (String "b" EmptyString)))).
  { exists 1%nat. reflexivity. }
  assert (Hno : ~ contains_char JsString.LF
                    (String "a" (String JsString.CR (String "b" EmptyString)))).
  { rewrite <- test_newline_spec. vm_compute. discriminate. }
  split; [exact Hcr|]. split; [exact Hno|].
  apply (DocPlainText_carriage_return_accepted (fun s : string => s) tt _ Hcr Hno).
Defined.

Lemma text_repeat_cached {TSDocConfiguration TokenSequence : Type}
    (TokenSequence_toString : TokenSequence -> string)
    (this : DocPlainText.t TSDocConfiguration TokenSequence)
    (cached : string) (n : nat) :
  DocPlainText._text this = Some cached ->
  DocPlainText.text_repeat TokenSequence_toString n this
  = Ok (replicate n cached, this).
Proof.
  intros Hcached. induction n as [|n IH]; simpl; [reflexivity|].
  unfold DocPlainText.text at 1. rewrite Hcached, IH. reflexivity.
Qed.

(** C6.  A [DocPlainText] built from parsed parameters holds no text at
    first.  The first read of [text] returns the [toString()] of the backing
    token sequence and stores it; every later read returns the stored string
    and leaves the node as it is, whatever [toString] would return then.
    [textExcerpt] is the backing token sequence of a parsed node and
    [undefined] for a node built from literal parameters. *)
Theorem DocPlainText_parsed_text {TSDocConfiguration TokenSequence : Type}
    (TokenSequence_toString : TokenSequence -> string)
    (configuration : TSDocConfiguration) (textExcerpt : TokenSequence) :
  exists node cached,
    DocPlainText.new (DocPlainText.IDocPlainTextParsedParameters configuration textExcerpt)
    = Ok node
    /\ DocPlainText._text node = None
    /\ DocPlainText.text TokenSequence_toString node
       = Ok (TokenSequence_toString textExcerpt, cached)
    /\ DocPlainText._text cached = Some (TokenSequence_toString textExcerpt)
    /\ (forall (toString' : TokenSequence -> string) (n : nat),
          DocPlainText.text_repeat toString' n cached
          = Ok (replicate n (TokenSequence_toString textExcerpt), cached))
    /\ DocPlainText.textExcerpt node = Some textExcerpt
    /\ DocPlainText.textExcerpt cached = Some textExcerpt
    /\ (forall (text : string)
               (literal : DocPlainText.t TSDocConfiguration TokenSequence),
          DocPlainText.new (DocPlainText.IDocPlainTextParameters configuration text)
          = Ok literal ->
          DocPlainText.textExcerpt literal = None).
Proof.
  do 2 eexists. split; [reflexivity|]. split; [reflexivity|].
  split; [reflexivity|]. split; [reflexivity|].
  split; [intros toString' n; now apply text_repeat_cached|].
  split; [reflexivity|]. split; [reflexivity|].
  intros text literal. simpl.
  destruct (DocPlainText._newlineCharacterRegExp_test text); [discriminate|].
  intros [= <-]. reflexivity.
Qed.

Lemma DocPlainText_parsed_text_witness :
  exists node cached,
    DocPlainText.new (DocPlainText.IDocPlainTextParsedParameters tt [ "ab"; "cd" ])
    = Ok node
    /\ DocPlainText.text (foldr String.app "") node = Ok ("abcd", cached)
    /\ DocPlainText.text_repeat (fun _ => "") 3 cached
       = Ok ([ "abcd"; "abcd"; "abcd" ], cached)
    /\ DocPlainText.textExcerpt
         (DocPlainText.mk (TokenSequence := list string) tt (Some "x") None) = None.
Proof.
  destruct (DocPlainText_parsed_text (foldr String.app "") tt [ "ab"; "cd" ])
    as (node & cached & Hnew & _ & Htext & _ & Hrepeat & _ & _ & Hliteral).
  exists node, cached. split; [exact Hnew|]. split; [exact Htext|].
  split; [exact (Hrepeat (fun _ => "") 3%nat)|].
  apply (Hliteral "x"). reflexivity.
Defined.

(** ** Child nodes *)

(** C8.  The child list keeps a position for every optional child and
    leaves it [undefined] when the child is absent.  A [DocMemberSymbol] has
    the four entries left bracket, spacing after the left bracket, symbol
    reference, right bracket, in this order: a parsed node has both bracket
    excerpts and has the spacing excerpt exactly when spacing was parsed; a
    node built from literal parameters has the symbol reference only.  A
    [DocPlainText] built from literal parameters has one entry, which is
    [undefined]. *)
Theorem getChildNodes_holes {TSDocConfiguration TokenSequence DocDeclarationReference : Type}
    (configuration : TSDocConfiguration) (symbolReference : DocDeclarationReference) :
  (forall (leftBracketExcerpt rightBracketExcerpt : TokenSequence)
          (spacingAfterLeftBracketExcerpt : option TokenSequence),
     let node :=
       DocMemberSymbol.new
         (DocMemberSymbol.IDocMemberSymbolParsedParameters configuration
            leftBracketExcerpt spacingAfterLeftBracketExcerpt symbolReference
            rightBracketExcerpt) in
     DocNode.getChildNodes DocMemberSymbol.onGetChildNodes node
     = DocMemberSymbol.onGetChildNodes node
     /\ DocMemberSymbol.onGetChildNodes node
        = [ Some (DocNode.Excerpt
                    (DocExcerpt.mk configuration
                       ExcerptKind.DocMemberSymbol_LeftBracket leftBracketExcerpt));
            match spacingAfterLeftBracketExcerpt with
            | Some spacing =>
                Some (DocNode.Excerpt
                        (DocExcerpt.mk configuration ExcerptKind.Spacing spacing))
            | None => None
            end;
            Some (DocNode.DeclarationReference symbolReference);
            Some (DocNode.Excerpt
                    (DocExcerpt.mk configuration
                       ExcerptKind.DocMemberSymbol_RightBracket rightBracketExcerpt)) ])
  /\ (let node :=
        DocMemberSymbol.new (TokenSequence := TokenSequence)
          (DocMemberSymbol.IDocMemberSymbolParameters configuration symbolReference) in
      DocNode.getChildNodes DocMemberSymbol.onGetChildNodes node
      = DocMemberSymbol.onGetChildNodes node
      /\ DocMemberSymbol.onGetChildNodes node
         = [ None; None; Some (DocNode.DeclarationReference symbolReference); None ])
  /\ (forall (text : string) (node : DocPlainText.t TSDocConfiguration TokenSequence),
        DocPlainText.new (DocPlainText.IDocPlainTextParameters configuration text)
        = Ok node ->
        DocNode.getChildNodes (DocPlainText.onGetChildNodes DocDeclarationReference) node
        = DocPlainText.onGetChildNodes DocDeclarationReference node
        /\ DocPlainText.onGetChildNodes DocDeclarationReference node = [ None ]).
Proof.
  split; [|split].
  - intros leftBracketExcerpt rightBracketExcerpt [spacing|]; split; reflexivity.
  - split; reflexivity.
  - intros text node. simpl.
    destruct (DocPlainText._newlineCharacterRegExp_test text); [discriminate|].
    intros [= <-]. split; reflexivity.
Qed.

Lemma getChildNodes_holes_witness :
  DocMemberSymbol.onGetChildNodes
    (DocMemberSymbol.new
       (DocMemberSymbol.IDocMemberSymbolParsedParameters tt "[" None "MySymbols.example" "]"))
  = [ Some (DocNode.Excerpt
              (DocExcerpt.mk tt ExcerptKind.DocMemberSymbol_LeftBracket "["));
      None;
      Some (DocNode.DeclarationReference "MySymbols.example");
      Some (DocNode.Excerpt
              (DocExcerpt.mk tt ExcerptKind.DocMemberSymbol_RightBracket "]")) ]
  /\ DocPlainText.onGetChildNodes string
       (DocPlainText.mk (TokenSequence := string) tt (Some "plain") None)
     = [ None ].
Proof.
  destruct (getChildNodes_holes (TokenSequence := string) tt "MySymbols.example")
    as (Hparsed & _ & Hplain).
  split.
  - exact (proj2 (Hparsed "[" "]" None)).
  - apply (Hplain "plain"). reflexivity.
Defined.

(** ** [DocParamCollection] *)

Lemma tryGetBlockByName_add {TSDocConfiguration DocParamBlock : Type}
    (parameterName : DocParamBlock -> string)
    (this : DocParamCollection.t TSDocConfiguration DocParamBlock)
    (docParamBlock : DocParamBlock) (name : string) :
  DocParamCollection.tryGetBlockByName
    (DocParamCollection.add parameterName this docParamBlock) name
  = match DocParamCollection.tryGetBlockByName this name with
    | Some first => Some first
    | None => if decide (parameterName docParamBlock = name)
              then Some docParamBlock else None
    end.
Proof.
  unfold DocParamCollection.tryGetBlockByName, DocParamCollection.add. simpl.
  set (allocated := match DocParamCollection._blocksByName this with
                    | Some blocksByName => blocksByName
                    | None => ∅
                    end).
  assert (Hlookup : match DocParamCollection._blocksByName this with
                    | Some blocksByName => blocksByName !! name
                    | None => None
                    end = allocated !! name).
  { subst allocated. destruct (DocParamCollection._blocksByName this);
      [reflexivity|]. now rewrite lookup_empty. }
  rewrite Hlookup. clear Hlookup.
  destruct (decide (parameterName docParamBlock = name)) as [<-|Hne].
  - destruct (allocated !! parameterName docParamBlock) as [first|] eqn:Hfirst.
    + rewrite bool_decide_eq_true_2 by eauto. exact Hfirst.
    + rewrite bool_decide_eq_false_2 by (intros [? ?]; discriminate).
      now rewrite lookup_insert_eq.
  - destruct (bool_decide (is_Some (allocated !! parameterName docParamBlock))).
    + now destruct (allocated !! name).
    + rewrite lookup_insert_ne by exact Hne. now destruct (allocated !! name).
Qed.

Lemma tryGetBlockByName_add_all {TSDocConfiguration DocParamBlock : Type}
    (parameterName : DocParamBlock -> string)
    (docParamBlocks : list DocParamBlock) (name : string) :
  forall this : DocParamCollection.t TSDocConfiguration DocParamBlock,
    DocParamCollection.tryGetBlockByName
      (DocParamCollection.add_all parameterName this docParamBlocks) name
    = match DocParamCollection.tryGetBlockByName this name with
      | Some first => Some first
      | None =>
          snd <$> list_find (fun block => parameterName block = name) docParamBlocks
      end.
Proof.
  induction docParamBlocks as [|block rest IH]; intros this.
  - simpl. now destruct (DocParamCollection.tryGetBlockByName this name).
  - change (DocParamCollection.add_all parameterName this (block :: rest))
      with (DocParamCollection.add_all parameterName
              (DocParamCollection.add parameterName this block) rest).
    rewrite IH, tryGetBlockByName_add.
    destruct (DocParamCollection.tryGetBlockByName this name); [reflexivity|].
    simpl. destruct (decide (parameterName block = name)); [reflexivity|].
    now destruct (list_find _ rest) as [[i found]|].
Qed.

Lemma blocks_add_all {TSDocConfiguration DocParamBlock : Type}
    (parameterName : DocParamBlock -> string)
    (docParamBlocks : list DocParamBlock) :
  forall this : DocParamCollection.t TSDocConfiguration DocParamBlock,
    DocParamCollection._blocks
      (DocParamCollection.add_all parameterName this docParamBlocks)
    = DocParamCollection._blocks this ++ docParamBlocks.
Proof.
  induction docParamBlocks as [|block rest IH]; intros this.
  - simpl. now rewrite app_nil_r.
  - change (DocParamCollection.add_all parameterName this (block :: rest))
      with (DocParamCollection.add_all parameterName
              (DocParamCollection.add parameterName this block) rest).
    rewrite IH. simpl. now rewrite <- app_assoc.
Qed.

(** C2.  After any sequence of [add] calls on a new collection,
    [tryGetBlockByName(name)] is the first block added under that name (and
    [undefined] when there is none), [count] is the number of blocks added,
    duplicates included, and the iterator and [blocks] give the blocks in
    the order they were added. *)
Theorem DocParamCollection_first_added_wins {TSDocConfiguration DocParamBlock : Type}
    (parameterName : DocParamBlock -> string)
    (configuration : TSDocConfiguration)
    (docParamBlocks : list DocParamBlock) (name : string) :
  let collection :=
    DocParamCollection.add_all parameterName
      (DocParamCollection.new DocParamBlock configuration) docParamBlocks in
  DocParamCollection.tryGetBlockByName collection name
  = snd <$> list_find (fun block => parameterName block = name) docParamBlocks
  /\ (forall block,
        DocParamCollection.tryGetBlockByName collection name = Some block
        <-> exists i : nat,
              docParamBlocks !! i = Some block
              /\ parameterName block = name
              /\ forall (j : nat) (earlier : DocParamBlock),
                   docParamBlocks !! j = Some earlier -> (j < i)%nat ->
                   parameterName earlier <> name)
  /\ (DocParamCollection.tryGetBlockByName collection name = None
      <-> Forall (fun block => parameterName block <> name) docParamBlocks)
  /\ DocParamCollection.count collection = Z.of_nat (length docParamBlocks)
  /\ DocParamCollection.iterator collection = docParamBlocks
  /\ DocParamCollection.blocks collection = docParamBlocks.
Proof.
  intros collection.
  assert (Hfind : DocParamCollection.tryGetBlockByName collection name
                  = snd <$> list_find (fun block => parameterName block = name)
                              docParamBlocks).
  { subst collection. now rewrite tryGetBlockByName_add_all. }
  assert (Hblocks : DocParamCollection._blocks collection = docParamBlocks).
  { subst collection. now rewrite blocks_add_all. }
  split; [exact Hfind|]. split; [|split].
  - intros block. rewrite Hfind. split.
    + destruct (list_find _ docParamBlocks) as [[i found]|] eqn:Hsome;
        [|discriminate].
      simpl. intros [= ->]. apply list_find_Some in Hsome. exists i. exact Hsome.
    + intros (i & Hsome).
      apply (list_find_Some (fun block => parameterName block = name)) in Hsome.
      now rewrite Hsome.
  - rewrite Hfind.
    destruct (list_find _ docParamBlocks) as [[i found]|] eqn:Hsome; simpl.
    + split; [discriminate|]. intros Hall.
      apply (list_find_None (fun block => parameterName block = name)) in Hall.
      rewrite Hall in Hsome. discriminate.
    + split; [|reflexivity]. intros _.
      apply list_find_None in Hsome. exact Hsome.
  - unfold DocParamCollection.count, DocParamCollection.iterator,
      DocParamCollection.blocks. rewrite Hblocks. auto.
Qed.

Lemma DocParamCollection_first_added_wins_witness :
  let collection :=
    DocParamCollection.add_all fst (DocParamCollection.new (string * nat) tt)
      [ ("x", 1%nat); ("y", 2%nat); ("x", 3%nat) ] in
  DocParamCollection.tryGetBlockByName collection "x" = Some ("x", 1%nat)
  /\ DocParamCollection.count collection = 3
  /\ DocParamCollection.iterator collection
     = [ ("x", 1%nat); ("y", 2%nat); ("x", 3%nat) ].
Proof.
  intros collection.
  destruct (DocParamCollection_first_added_wins fst tt
              [ ("x", 1%nat); ("y", 2%nat); ("x", 3%nat) ] "x")
    as (Hfind & _ & _ & Hcount & Hiter & _).
  fold collection in Hfind, Hcount, Hiter.
  split; [rewrite Hfind; reflexivity|]. split; [exact Hcount|exact Hiter].
Defined.

(** C9.  [clear()] leaves the collection in the state of a new one: no
    block, no name index.  [count] is 0, [blocks] and the iterator are empty,
    [tryGetBlockByName] is [undefined] for every name, and the calls of [add]
    that follow give what they give on a new collection. *)
Theorem DocParamCollection_clear {TSDocConfiguration DocParamBlock : Type}
    (parameterName : DocParamBlock -> string)
    (this : DocParamCollection.t TSDocConfiguration DocParamBlock) :
  let cleared := DocParamCollection.clear this in
  let fresh :=
    DocParamCollection.new DocParamBlock (DocParamCollection.configuration this) in
  DocParamCollection.count cleared = 0
  /\ DocParamCollection.blocks cleared = []
  /\ DocParamCollection.iterator cleared = []
  /\ (forall name, DocParamCollection.tryGetBlockByName cleared name = None)
  /\ DocParamCollection._blocksByName cleared = None
  /\ (forall docParamBlock,
        DocParamCollection.add parameterName cleared docParamBlock
        = DocParamCollection.add parameterName fresh docParamBlock)
  /\ (forall docParamBlocks name,
        let collection :=
          DocParamCollection.add_all parameterName cleared docParamBlocks in
        DocParamCollection.tryGetBlockByName collection name
        = snd <$> list_find (fun block => parameterName block = name) docParamBlocks
        /\ DocParamCollection.blocks collection = docParamBlocks).
Proof.
  intros cleared fresh.
  repeat (split; [reflexivity|]).
  intros docParamBlocks name collection. subst collection. split.
  - now rewrite tryGetBlockByName_add_all.
  - unfold DocParamCollection.blocks. now rewrite blocks_add_all.
Qed.

Lemma DocParamCollection_clear_witness :
  let filled :=
    DocParamCollection.add_all fst (DocParamCollection.new (string * nat) tt)
      [ ("x", 1%nat); ("y", 2%nat) ] in
  let cleared := DocParamCollection.clear filled in
  DocParamCollection.count cleared = 0
  /\ DocParamCollection.tryGetBlockByName cleared "x" = None
  /\ DocParamCollection.tryGetBlockByName
       (DocParamCollection.add_all fst cleared [ ("x", 3%nat) ]) "x"
     = Some ("x", 3%nat).
Proof.
  intros filled cleared.
  destruct (DocParamCollection_clear fst filled)
    as (Hcount & _ & _ & Hnone & _ & _ & Hadd).
  fold cleared in Hcount, Hnone, Hadd.
  split; [exact Hcount|]. split; [exact (Hnone "x")|].
  destruct (Hadd [ ("x", 3%nat) ] "x") as [Hfind _].
  rewrite Hfind. reflexivity.
Defined.


(** * Further properties of [TextRange] *)

Lemma string_app_nil_r (s : string) : s +:+ EmptyString = s.
Proof.
  induction s as [|c s IH]; [reflexivity|].
  change (String c s +:+ EmptyString) with (String c (s +:+ EmptyString)).
  now rewrite IH.
Qed.

Lemma string_app_assoc (a b c : string) : (a +:+ b) +:+ c = a +:+ (b +:+ c).
Proof.
  induction a as [|x a IH]; [reflexivity|].
  change ((String x a +:+ b) +:+ c) with (String x ((a +:+ b) +:+ c)).
  now rewrite IH.
Qed.

Lemma string_length_app (a b : string) :
  String.length (a +:+ b) = (String.length a + String.length b)%nat.
Proof.
  induction a as [|x a IH]; [reflexivity|].
  change (String x a +:+ b) with (String x (a +:+ b)). simpl. now rewrite IH.
Qed.

Lemma string_length_zero (s : string) : String.length s = 0%nat -> s = EmptyString.
Proof. destruct s; [reflexivity|discriminate]. Qed.

Lemma string_length_substring (s : string) (n m : nat) :
  (n + m <= String.length s)%nat ->
  String.length (String.substring n m s) = m.
Proof.
  revert n m; induction s as [|c s IH]; intros n m Hle; simpl in Hle.
  - assert (n = 0%nat) as -> by lia. assert (m = 0%nat) as -> by lia. reflexivity.
  - destruct n as [|n].
    + destruct m as [|m]; [reflexivity|]. simpl. rewrite (IH 0%nat m); lia.
    + simpl. apply IH. lia.
Qed.

Lemma string_substring_split (s : string) (n a b : nat) :
  String.substring n (a + b) s
  = String.substring n a s +:+ String.substring (n + a) b s.
Proof.
  revert n a; induction s as [|c s IH]; intros n a.
  - destruct n, a, b; reflexivity.
  - destruct n as [|n].
    + destruct a as [|a]; [reflexivity|].
      change (String.substring 0 (S a + b) (String c s))
        with (String c (String.substring 0 (a + b) s)).
      rewrite (IH 0%nat a). reflexivity.
    + simpl. apply IH.
Qed.

Lemma string_substring_app_l (a b : string) (n : nat) :
  (n <= String.length a)%nat ->
  String.substring 0 n (a +:+ b) = String.substring 0 n a.
Proof.
  revert n; induction a as [|x a IH]; intros n Hle; simpl in Hle.
  - assert (n = 0%nat) as -> by lia. now rewrite !string_substring_zero.
  - destruct n as [|n]; [reflexivity|].
    change (String x a +:+ b) with (String x (a +:+ b)). simpl.
    rewrite IH by lia. reflexivity.
Qed.

Lemma js_substring_from_in_bounds (s : string) (start : Z) :
  0 <= start <= JsString.length s ->
  JsString.substring_from s start
  = String.substring (Z.to_nat start) (Z.to_nat (JsString.length s - start)) s.
Proof.
  intros Hin. unfold JsString.substring_from.
  apply js_substring_in_bounds. unfold in_bounds. lia.
Qed.

Lemma toString_in_bounds (range : TextRange.t) :
  TextRange_invariant range ->
  TextRange.toString range
  = String.substring (Z.to_nat (TextRange.pos range))
      (Z.to_nat (TextRange.end_ range - TextRange.pos range))
      (TextRange.buffer range).
Proof. intros Hin. now apply js_substring_in_bounds. Qed.

Lemma fromString_whole (buffer : string) :
  TextRange.fromString buffer = Ok (TextRange.mk buffer 0 (JsString.length buffer))
  /\ TextRange.toString (TextRange.mk buffer 0 (JsString.length buffer)) = buffer.
Proof.
  assert (Hin : in_bounds buffer 0 (JsString.length buffer)).
  { unfold in_bounds, JsString.length. lia. }
  split; [apply (new_in_bounds _ _ _ Hin)|].
  rewrite toString_in_bounds by exact Hin. simpl.
  rewrite Z.sub_0_r. unfold JsString.length. rewrite Nat2Z.id.
  apply string_substring_all.
Qed.

(** [fromString] never throws, and the range it returns covers the whole
    buffer: [toString()] gives the buffer back, [length] is the length of the
    buffer, and [isEmpty()] holds exactly for the empty buffer. *)
Theorem fromString_round_trip (buffer : string) :
  exists range,
    TextRange.fromString buffer = Ok range
    /\ TextRange.buffer range = buffer
    /\ TextRange.pos range = 0
    /\ TextRange.end_ range = JsString.length buffer
    /\ TextRange.toString range = buffer
    /\ TextRange.length range = JsString.length buffer
    /\ (TextRange.isEmpty range = true <-> buffer = EmptyString).
Proof.
  destruct (fromString_whole buffer) as [Hnew Hstr].
  exists (TextRange.mk buffer 0 (JsString.length buffer)).
  split; [exact Hnew|].
  repeat (split; [reflexivity|]). split; [exact Hstr|]. split.
  - unfold TextRange.length. cbn [TextRange.pos TextRange.end_]. lia.
  - unfold TextRange.isEmpty. cbn [TextRange.pos TextRange.end_].
    rewrite Z.eqb_eq. unfold JsString.length. split.
    + intros H. apply string_length_zero. lia.
    + intros ->. reflexivity.
Qed.

(** For a range obtained from the public interface, the text [toString()]
    returns has exactly [length] characters, and [isEmpty()] holds exactly
    when that text is the empty string. *)
Theorem toString_length (range : TextRange.t) :
  TextRange_constructed range ->
  JsString.length (TextRange.toString range) = TextRange.length range
  /\ (TextRange.isEmpty range = true <-> TextRange.toString range = EmptyString).
Proof.
  intros Hc. pose proof (constructed_in_bounds _ Hc) as Hin.
  assert (Hlen : JsString.length (TextRange.toString range) = TextRange.length range).
  { rewrite toString_in_bounds by exact Hin.
    unfold TextRange_invariant, in_bounds, JsString.length, TextRange.length in *.
    rewrite string_length_substring by lia. lia. }
  split; [exact Hlen|].
  unfold TextRange.isEmpty. rewrite Z.eqb_eq. split.
  - intros Heq. apply string_length_zero.
    unfold JsString.length, TextRange.length in Hlen. lia.
  - intros Hempty. rewrite Hempty in Hlen.
    change (JsString.length EmptyString) with 0 in Hlen.
    unfold TextRange.length in Hlen. lia.
Qed.

Lemma toString_length_witness :
  TextRange_constructed (TextRange.mk "1234567" 2 5)
  /\ JsString.length (TextRange.toString (TextRange.mk "1234567" 2 5)) = 3.
Proof.
  assert (Hc : TextRange_constructed (TextRange.mk "1234567" 2 5)).
  { apply (constructed_fromStringRange "1234567" 2 5). reflexivity. }
  split; [exact Hc|].
  rewrite (proj1 (toString_length _ Hc)). reflexivity.
Defined.

(** Sub-ranges taken with [getNewRange] tile the buffer: for
    [0 <= pos <= middle <= end <= length(buffer)] the three calls succeed,
    and the text of [pos .. middle] followed by the text of [middle .. end]
    is the text of [pos .. end].  The offsets are offsets into the buffer,
    whatever the bounds of the receiver are. *)
Theorem getNewRange_adjacent (this : TextRange.t) (pos middle end_ : Z) :
  0 <= pos -> pos <= middle -> middle <= end_ ->
  end_ <= JsString.length (TextRange.buffer this) ->
  exists left right whole,
    TextRange.getNewRange this pos middle = Ok left
    /\ TextRange.getNewRange this middle end_ = Ok right
    /\ TextRange.getNewRange this pos end_ = Ok whole
    /\ TextRange.toString left +:+ TextRange.toString right
       = TextRange.toString whole.
Proof.
  intros H0 H1 H2 H3. unfold TextRange.getNewRange.
  assert (Hl : in_bounds (TextRange.buffer this) pos middle) by (unfold in_bounds; lia).
  assert (Hr : in_bounds (TextRange.buffer this) middle end_) by (unfold in_bounds; lia).
  assert (Hw : in_bounds (TextRange.buffer this) pos end_) by (unfold in_bounds; lia).
  do 3 eexists.
  rewrite (new_in_bounds _ _ _ Hl), (new_in_bounds _ _ _ Hr), (new_in_bounds _ _ _ Hw).
  repeat (split; [reflexivity|]).
  rewrite !toString_in_bounds by assumption. simpl.
  replace (Z.to_nat (end_ - pos))
    with (Z.to_nat (middle - pos) + Z.to_nat (end_ - middle))%nat by lia.
  rewrite string_substring_split.
  replace (Z.to_nat pos + Z.to_nat (middle - pos))%nat with (Z.to_nat middle) by lia.
  reflexivity.
Qed.

Lemma getNewRange_adjacent_witness :
  exists left right whole,
    TextRange.getNewRange (TextRange.mk "1234567" 6 7) 1 3 = Ok left
    /\ TextRange.getNewRange (TextRange.mk "1234567" 6 7) 3 6 = Ok right
    /\ TextRange.getNewRange (TextRange.mk "1234567" 6 7) 1 6 = Ok whole
    /\ TextRange.toString left +:+ TextRange.toString right
       = TextRange.toString whole.
Proof.
  apply (getNewRange_adjacent (TextRange.mk "1234567" 6 7) 1 3 6);
    vm_compute; discriminate.
Defined.

(** A range obtained from the public interface is reproduced by
    [getNewRange(pos, end)] on itself, and [getNewRange(0, buffer.length)]
    widens it to the whole buffer. *)
Theorem getNewRange_self (range : TextRange.t) :
  TextRange_constructed range ->
  TextRange.getNewRange range (TextRange.pos range) (TextRange.end_ range)
  = Ok range
  /\ TextRange.getNewRange range 0 (JsString.length (TextRange.buffer range))
     = TextRange.fromString (TextRange.buffer range)
  /\ exists whole,
       TextRange.getNewRange range 0 (JsString.length (TextRange.buffer range))
       = Ok whole
       /\ TextRange.toString whole = TextRange.buffer range.
Proof.
  intros Hc. pose proof (constructed_in_bounds _ Hc) as Hin.
  unfold TextRange.getNewRange. split; [|split].
  - rewrite (new_in_bounds _ _ _ Hin). now destruct range.
  - reflexivity.
  - destruct (fromString_whole (TextRange.buffer range)) as [Hnew Hstr].
    eexists. split; [exact Hnew|exact Hstr].
Qed.

Lemma getNewRange_self_witness :
  TextRange_constructed (TextRange.mk "1234567" 2 5)
  /\ TextRange.getNewRange (TextRange.mk "1234567" 2 5) 2 5
     = Ok (TextRange.mk "1234567" 2 5).
Proof.
  assert (Hc : TextRange_constructed (TextRange.mk "1234567" 2 5)).
  { apply (constructed_fromStringRange "1234567" 2 5). reflexivity. }
  split; [exact Hc|]. exact (proj1 (getNewRange_self _ Hc)).
Defined.

Lemma buffer_three_parts (s : string) (pos end_ : Z) :
  in_bounds s pos end_ ->
  String.substring 0 (Z.to_nat pos) s
  +:+ String.substring (Z.to_nat pos) (Z.to_nat (end_ - pos)) s
  +:+ String.substring (Z.to_nat end_) (Z.to_nat (JsString.length s - end_)) s
  = s.
Proof.
  intros (H0 & H1 & H2). unfold JsString.length in *.
  set (a := Z.to_nat pos). set (b := Z.to_nat (end_ - pos)).
  set (c := Z.to_nat (Z.of_nat (String.length s) - end_)).
  assert (Hlen : String.length s = (a + (b + c))%nat) by lia.
  assert (Hend : Z.to_nat end_ = (a + b)%nat) by lia.
  rewrite Hend. transitivity (String.substring 0 (a + (b + c)) s).
  - rewrite !string_substring_split. reflexivity.
  - rewrite <- Hlen. apply string_substring_all.
Qed.

(** For a range obtained from the public interface, [getDebugDump] is the
    buffer with the two delimiters inserted at [pos] and at [end]: it is
    [before + posDelimiter + toString() + endDelimiter + after] where
    [before] has [pos] characters and [before + toString() + after] is the
    buffer.  With empty delimiters the dump is the buffer itself. *)
Theorem getDebugDump_inserts_delimiters (range : TextRange.t)
    (posDelimiter endDelimiter : string) :
  TextRange_constructed range ->
  exists before after,
    TextRange.getDebugDump range posDelimiter endDelimiter
    = before +:+ posDelimiter +:+ TextRange.toString range
      +:+ endDelimiter +:+ after
    /\ before +:+ TextRange.toString range +:+ after = TextRange.buffer range
    /\ JsString.length before = TextRange.pos range
    /\ JsString.length (TextRange.getDebugDump range posDelimiter endDelimiter)
       = JsString.length (TextRange.buffer range)
         + JsString.length posDelimiter + JsString.length endDelimiter
    /\ TextRange.getDebugDump range EmptyString EmptyString = TextRange.buffer range.
Proof.
  intros Hc. pose proof (constructed_in_bounds _ Hc) as Hin.
  pose proof Hin as (H0 & H1 & H2).
  pose proof (buffer_three_parts _ _ _ Hin) as Hparts.
  assert (Hbefore : JsString.substring (TextRange.buffer range) 0 (TextRange.pos range)
                    = String.substring 0 (Z.to_nat (TextRange.pos range))
                        (TextRange.buffer range)).
  { rewrite js_substring_in_bounds by (unfold in_bounds; lia).
    now rewrite Z.sub_0_r. }
  assert (Hafter : JsString.substring_from (TextRange.buffer range) (TextRange.end_ range)
                   = String.substring (Z.to_nat (TextRange.end_ range))
                       (Z.to_nat (JsString.length (TextRange.buffer range)
                                  - TextRange.end_ range))
                       (TextRange.buffer range)).
  { apply js_substring_from_in_bounds. lia. }
  assert (Hdump : forall a b,
            TextRange.getDebugDump range a b
            = String.substring 0 (Z.to_nat (TextRange.pos range)) (TextRange.buffer range)
              +:+ a +:+ TextRange.toString range +:+ b
              +:+ String.substring (Z.to_nat (TextRange.end_ range))
                    (Z.to_nat (JsString.length (TextRange.buffer range)
                               - TextRange.end_ range))
                    (TextRange.buffer range)).
  { intros a b. unfold TextRange.getDebugDump.
    fold (TextRange.toString range). rewrite Hbefore, Hafter. reflexivity. }
  do 2 eexists. split; [apply Hdump|].
  rewrite (toString_in_bounds _ Hin) in *.
  split; [exact Hparts|]. split; [|split].
  - unfold JsString.length in *. rewrite string_length_substring by lia. lia.
  - rewrite Hdump. apply (f_equal String.length) in Hparts.
    unfold JsString.length in *. rewrite !string_length_app in *. lia.
  - rewrite Hdump. exact Hparts.
Qed.

Lemma getDebugDump_inserts_delimiters_witness :
  TextRange_constructed (TextRange.mk "1234567" 2 5)
  /\ TextRange.getDebugDump (TextRange.mk "1234567" 2 5) "[" "]" = "12[345]67"
  /\ TextRange.getDebugDump (TextRange.mk "1234567" 2 5) "" "" = "1234567".
Proof.
  assert (Hc : TextRange_constructed (TextRange.mk "1234567" 2 5)).
  { apply (constructed_fromStringRange "1234567" 2 5). reflexivity. }
  split; [exact Hc|].
  destruct (getDebugDump_inserts_delimiters _ "[" "]" Hc)
    as (before & after & _ & _ & _ & _ & Hplain).
  split; [reflexivity|exact Hplain].
Defined.

(** [getLocation] looks at nothing but the characters of the buffer before
    [index]: the location of an index is the same in a longer buffer that
    starts with the same text, and it does not depend on [pos] and [end]. *)
Theorem getLocation_ignores_later_text (buffer suffix : string)
    (pos end_ pos' end_' index : Z) :
  0 <= index <= JsString.length buffer ->
  TextRange.getLocation (TextRange.mk (buffer +:+ suffix) pos' end_') index
  = TextRange.getLocation (TextRange.mk buffer pos end_) index.
Proof.
  intros Hin.
  assert (Hlen : JsString.length (buffer +:+ suffix)
                 = JsString.length buffer + JsString.length suffix).
  { unfold JsString.length. rewrite string_length_app. lia. }
  assert (0 <= JsString.length suffix) by (unfold JsString.length; lia).
  rewrite !getLocation_in_range by (simpl; lia). simpl.
  rewrite !js_substring_in_bounds by (unfold in_bounds; lia).
  rewrite Z.sub_0_r. change (Z.to_nat 0) with 0%nat.
  rewrite string_substring_app_l by (unfold JsString.length in *; lia).
  reflexivity.
Qed.

Lemma getLocation_ignores_later_text_witness :
  (0 <= 2 <= JsString.length "ab")
  /\ TextRange.getLocation (TextRange.mk ("ab" +:+ "cd") 1 3) 2
     = TextRange.getLocation (TextRange.mk "ab" 0 0) 2.
Proof.
  assert (Hin : 0 <= 2 <= JsString.length "ab") by (vm_compute; split; discriminate).
  split; [exact Hin|].
  apply (getLocation_ignores_later_text "ab" "cd" 0 0 1 3 2 Hin).
Defined.

Lemma walk_monotone (text : string) :
  forall location : ITextLocation,
    1 <= column location ->
    let location' := LocationSpec.walk location text in
    line location <= line location'
    /\ (line location' = line location -> column location <= column location')
    /\ line location' + column location'
       <= line location + column location + JsString.length text.
Proof.
  unfold JsString.length.
  induction text as [|c text IH]; intros location Hcol; simpl.
  - lia.
  - unfold LocationSpec.advance.
    destruct (bool_decide (c = JsString.LF)); [|destruct (bool_decide (c = JsString.CR))].
    + specialize (IH {| line := line location + 1; column := 1 |}).
      simpl in IH. lia.
    + specialize (IH location Hcol). simpl in IH. lia.
    + specialize (IH {| line := line location; column := column location + 1 |}).
      simpl in IH. lia.
Qed.

(** Locations grow with the index.  For [0 <= i <= j <= length(buffer)] the
    location of [j] is not before the location of [i]: its line is not
    smaller, and on the same line its column is not smaller.  The location of
    an index is bounded by it: [line + column <= index + 2]. *)
Theorem getLocation_monotone (this : TextRange.t) (i j : Z) :
  0 <= i -> i <= j -> j <= JsString.length (TextRange.buffer this) ->
  exists at_i at_j,
    TextRange.getLocation this i = Some at_i
    /\ TextRange.getLocation this j = Some at_j
    /\ line at_i <= line at_j
    /\ (line at_j = line at_i -> column at_i <= column at_j)
    /\ line at_j + column at_j <= line at_i + column at_i + (j - i)
    /\ line at_i + column at_i <= i + 2.
Proof.
  intros H0 H1 H2.
  rewrite !getLocation_in_range by lia.
  rewrite !js_substring_in_bounds by (unfold in_bounds; lia).
  rewrite !Z.sub_0_r. change (Z.to_nat 0) with 0%nat.
  do 2 eexists. split; [reflexivity|]. split; [reflexivity|].
  replace (Z.to_nat j) with (Z.to_nat i + Z.to_nat (j - i))%nat by lia.
  rewrite string_substring_split. unfold LocationSpec.locate.
  rewrite walk_app. simpl.
  set (prefix := String.substring 0 (Z.to_nat i) (TextRange.buffer this)).
  set (segment := String.substring (Z.to_nat i) (Z.to_nat (j - i)) (TextRange.buffer this)).
  assert (Hprefix : JsString.length prefix = i).
  { unfold JsString.length in *. subst prefix.
    rewrite string_length_substring by lia. lia. }
  assert (Hsegment : JsString.length segment = j - i).
  { unfold JsString.length in *. subst segment.
    rewrite string_length_substring by lia. lia. }
  pose proof (walk_monotone prefix LocationSpec.origin) as Hp.
  pose proof (walk_column prefix LocationSpec.origin) as Hc.
  pose proof (walk_monotone segment (LocationSpec.walk LocationSpec.origin prefix)) as Hs.
  simpl in Hp, Hc, Hs. lia.
Qed.

Lemma getLocation_monotone_witness :
  exists at_i at_j,
    TextRange.getLocation (TextRange.mk "1234567" 0 7) 2 = Some at_i
    /\ TextRange.getLocation (TextRange.mk "1234567" 0 7) 5 = Some at_j
    /\ line at_i <= line at_j.
Proof.
  destruct (getLocation_monotone (TextRange.mk "1234567" 0 7) 2 5)
    as (at_i & at_j & Hi & Hj & Hline & _); try (vm_compute; discriminate).
  exists at_i, at_j. auto.
Defined.


(** * Further properties of [DocPlainText] *)

Lemma DocPlainText_text_throws {TSDocConfiguration TokenSequence : Type}
    (TokenSequence_toString : TokenSequence -> string)
    (this : DocPlainText.t TSDocConfiguration TokenSequence) :
  throws (DocPlainText.text TokenSequence_toString this)
  <-> DocPlainText._text this = None /\ DocPlainText._textExcerpt this = None.
Proof.
  unfold DocPlainText.text.
  destruct (DocPlainText._text this), (DocPlainText._textExcerpt this); simpl;
    intuition discriminate.
Qed.

Lemma DocPlainText_new_filled {TSDocConfiguration TokenSequence : Type}
    (parameters : DocPlainText.parameters TSDocConfiguration TokenSequence)
    (node : DocPlainText.t TSDocConfiguration TokenSequence) :
  DocPlainText.new parameters = Ok node ->
  ~ (DocPlainText._text node = None /\ DocPlainText._textExcerpt node = None).
Proof.
  destruct parameters as [configuration text|configuration textExcerpt]; simpl.
  - destruct (DocPlainText._newlineCharacterRegExp_test text); [discriminate|].
    intros [= <-]. simpl. intros [? _]. discriminate.
  - intros [= <-]. simpl. intros [_ ?]. discriminate.
Qed.

(** Reading [text] never throws on a node that the constructor returned,
    whichever shape the parameters had: any number of successive reads
    succeed, and all of them return the same string. *)
Theorem DocPlainText_reads_never_throw {TSDocConfiguration TokenSequence : Type}
    (TokenSequence_toString : TokenSequence -> string)
    (parameters : DocPlainText.parameters TSDocConfiguration TokenSequence)
    (node : DocPlainText.t TSDocConfiguration TokenSequence) :
  DocPlainText.new parameters = Ok node ->
  ~ throws (DocPlainText.text TokenSequence_toString node)
  /\ exists value,
       forall n : nat,
       exists node',
         DocPlainText.text_repeat TokenSequence_toString n node
         = Ok (replicate n value, node').
Proof.
  intros Hnew. pose proof (DocPlainText_new_filled _ _ Hnew) as Hfilled.
  split; [now rewrite DocPlainText_text_throws|].
  destruct (DocPlainText._text node) as [cached|] eqn:Htext.
  - exists cached. intros n. exists node. now apply text_repeat_cached.
  - destruct (DocPlainText._textExcerpt node) as [excerpt|] eqn:Hexcerpt;
      [|tauto].
    exists (TokenSequence_toString (DocExcerpt.content excerpt)).
    intros [|n]; [now exists node|].
    eexists. simpl. unfold DocPlainText.text at 1. rewrite Htext, Hexcerpt.
    rewrite (text_repeat_cached _ _ (TokenSequence_toString (DocExcerpt.content excerpt)))
      by reflexivity.
    reflexivity.
Qed.

Lemma DocPlainText_reads_never_throw_witness :
  exists node value,
    DocPlainText.new (DocPlainText.IDocPlainTextParsedParameters tt [ "ab"; "cd" ])
    = Ok node
    /\ exists node',
         DocPlainText.text_repeat (foldr String.app "") 2 node
         = Ok ([ value; value ], node').
Proof.
  eexists.
  destruct (DocPlainText_reads_never_throw (foldr String.app "")
              (DocPlainText.IDocPlainTextParsedParameters tt [ "ab"; "cd" ]) _ eq_refl)
    as (_ & value & Hreads).
  exists value. split; [reflexivity|]. exact (Hreads 2%nat).
Defined.

(** A successful read of [text] changes nothing but the cached string: the
    excerpt, the configuration and the child list stay as they were, the
    value read is stored in [_text], and reading again returns the same
    value and leaves the node alone, whatever [toString] returns by then. *)
Theorem DocPlainText_text_only_caches
    {TSDocConfiguration TokenSequence DocDeclarationReference : Type}
    (TokenSequence_toString : TokenSequence -> string)
    (this this' : DocPlainText.t TSDocConfiguration TokenSequence) (value : string) :
  DocPlainText.text TokenSequence_toString this = Ok (value, this') ->
  DocPlainText._text this' = Some value
  /\ DocPlainText._textExcerpt this' = DocPlainText._textExcerpt this
  /\ DocPlainText.configuration this' = DocPlainText.configuration this
  /\ DocPlainText.textExcerpt this' = DocPlainText.textExcerpt this
  /\ DocPlainText.onGetChildNodes DocDeclarationReference this'
     = DocPlainText.onGetChildNodes DocDeclarationReference this
  /\ (forall toString' : TokenSequence -> string,
        DocPlainText.text toString' this' = Ok (value, this')).
Proof.
  unfold DocPlainText.text at 1.
  destruct (DocPlainText._text this) as [cached|] eqn:Htext.
  - intros [= <- <-]. repeat (split; [auto|]).
    intros toString'. unfold DocPlainText.text. now rewrite Htext.
  - destruct (DocPlainText._textExcerpt this) as [excerpt|] eqn:Hexcerpt;
      [|discriminate].
    intros [= <- <-]. unfold DocPlainText.textExcerpt, DocPlainText.onGetChildNodes.
    simpl. rewrite Hexcerpt. repeat (split; [reflexivity|]). reflexivity.
Qed.

Lemma DocPlainText_text_only_caches_witness :
  DocPlainText.text (fun s : string => s)
    (DocPlainText.mk tt None (Some (DocExcerpt.mk tt ExcerptKind.PlainText "ab")))
  = Ok ("ab",
        DocPlainText.mk tt (Some "ab")
          (Some (DocExcerpt.mk tt ExcerptKind.PlainText "ab")))
  /\ DocPlainText.text (fun _ : string => "")
       (DocPlainText.mk tt (Some "ab")
          (Some (DocExcerpt.mk tt ExcerptKind.PlainText "ab")))
     = Ok ("ab",
           DocPlainText.mk tt (Some "ab")
             (Some (DocExcerpt.mk tt ExcerptKind.PlainText "ab"))).
Proof.
  assert (Hread : DocPlainText.text (fun s : string => s)
            (DocPlainText.mk tt None (Some (DocExcerpt.mk tt ExcerptKind.PlainText "ab")))
          = Ok ("ab",
                DocPlainText.mk tt (Some "ab")
                  (Some (DocExcerpt.mk tt ExcerptKind.PlainText "ab"))))
    by reflexivity.
  split; [exact Hread|].
  destruct (DocPlainText_text_only_caches (DocDeclarationReference := unit) _ _ _ _ Hread)
    as (_ & _ & _ & _ & _ & Hagain).
  exact (Hagain (fun _ : string => "")).
Defined.




(** * Further properties of [DocParamCollection] *)

Lemma list_find_snoc {A : Type} (P : A -> Prop) `{!forall x, Decision (P x)}
    (l : list A) (x : A) :
  snd <$> list_find P (l ++ [x])
  = match snd <$> list_find P l with
    | Some y => Some y
    | None => if decide (P x) then Some x else None
    end.
Proof.
  induction l as [|a l IH]; simpl.
  - destruct (decide (P x)); reflexivity.
  - destruct (decide (P a)); [reflexivity|].
    revert IH.
    destruct (list_find P (l ++ [x])) as [[i y]|], (list_find P l) as [[j z]|];
      simpl; auto.
Qed.

Lemma add_keeps_index {TSDocConfiguration DocParamBlock : Type}
    (parameterName : DocParamBlock -> string)
    (this : DocParamCollection.t TSDocConfiguration DocParamBlock)
    (docParamBlock : DocParamBlock) :
  (forall name,
     DocParamCollection.tryGetBlockByName this name
     = snd <$> list_find (fun block => parameterName block = name)
                 (DocParamCollection._blocks this)) ->
  forall name,
    DocParamCollection.tryGetBlockByName
      (DocParamCollection.add parameterName this docParamBlock) name
    = snd <$> list_find (fun block => parameterName block = name)
                (DocParamCollection._blocks
                   (DocParamCollection.add parameterName this docParamBlock)).
Proof.
  intros Hindex name. rewrite tryGetBlockByName_add, Hindex. simpl.
  now rewrite list_find_snoc.
Qed.

Lemma perform_all_keeps_index {TSDocConfiguration DocParamBlock : Type}
    (parameterName : DocParamBlock -> string)
    (calls : list (DocParamCollectionCalls.call DocParamBlock)) :
  forall this : DocParamCollection.t TSDocConfiguration DocParamBlock,
    (forall name,
       DocParamCollection.tryGetBlockByName this name
       = snd <$> list_find (fun block => parameterName block = name)
                   (DocParamCollection._blocks this)) ->
    forall name,
      DocParamCollection.tryGetBlockByName
        (DocParamCollectionCalls.perform_all parameterName this calls) name
      = snd <$> list_find (fun block => parameterName block = name)
                  (DocParamCollection._blocks
                     (DocParamCollectionCalls.perform_all parameterName this calls)).
Proof.
  induction calls as [|c rest IH]; intros this Hindex; [exact Hindex|].
  change (DocParamCollectionCalls.perform_all parameterName this (c :: rest))
    with (DocParamCollectionCalls.perform_all parameterName
            (DocParamCollectionCalls.perform parameterName this c) rest).
  apply IH. destruct c as [docParamBlock|]; simpl.
  - now apply add_keeps_index.
  - reflexivity.
Qed.

Lemma perform_all_blocks {TSDocConfiguration DocParamBlock : Type}
    (parameterName : DocParamBlock -> string)
    (calls : list (DocParamCollectionCalls.call DocParamBlock)) :
  forall this : DocParamCollection.t TSDocConfiguration DocParamBlock,
    DocParamCollection._blocks
      (DocParamCollectionCalls.perform_all parameterName this calls)
    = if existsb DocParamCollectionCalls.is_clear calls
      then DocParamCollectionCalls.added_since_clear calls
      else DocParamCollection._blocks this
           ++ DocParamCollectionCalls.added_since_clear calls.
Proof.
  induction calls as [|c rest IH]; intros this.
  - simpl. now rewrite app_nil_r.
  - change (DocParamCollectionCalls.perform_all parameterName this (c :: rest))
      with (DocParamCollectionCalls.perform_all parameterName
              (DocParamCollectionCalls.perform parameterName this c) rest).
    rewrite IH. simpl.
    destruct (existsb DocParamCollectionCalls.is_clear rest).
    + now rewrite orb_true_r.
    + rewrite orb_false_r. destruct c as [docParamBlock|]; simpl.
      * now rewrite <- app_assoc.
      * reflexivity.
Qed.

Lemma perform_all_allocation {TSDocConfiguration DocParamBlock : Type}
    (parameterName : DocParamBlock -> string)
    (calls : list (DocParamCollectionCalls.call DocParamBlock)) :
  forall this : DocParamCollection.t TSDocConfiguration DocParamBlock,
    (DocParamCollection._blocksByName this = None
     <-> DocParamCollection._blocks this = []) ->
    let after := DocParamCollectionCalls.perform_all parameterName this calls in
    (DocParamCollection._blocksByName after = None
     <-> DocParamCollection._blocks after = [])
    /\ DocParamCollection.configuration after = DocParamCollection.configuration this.
Proof.
  induction calls as [|c rest IH]; intros this Halloc; [now split|].
  change (DocParamCollectionCalls.perform_all parameterName this (c :: rest))
    with (DocParamCollectionCalls.perform_all parameterName
            (DocParamCollectionCalls.perform parameterName this c) rest).
  destruct (IH (DocParamCollectionCalls.perform parameterName this c)) as [H1 H2].
  - destruct c as [docParamBlock|]; simpl; [|tauto].
    split; [discriminate|]. intros Hnil. now apply app_eq_nil in Hnil as [_ ?].
  - split; [exact H1|]. rewrite H2. now destruct c.
Qed.

(** The name index follows the list through every sequence of [add] and
    [clear] calls on a new collection.  The collection holds the blocks added
    since the last [clear], in order; [tryGetBlockByName(name)] is the first
    of them with that name; [count] is their number; and the map is allocated
    exactly when the collection holds a block. *)
Theorem DocParamCollection_calls_invariant {TSDocConfiguration DocParamBlock : Type}
    (parameterName : DocParamBlock -> string)
    (configuration : TSDocConfiguration)
    (calls : list (DocParamCollectionCalls.call DocParamBlock)) :
  let collection :=
    DocParamCollectionCalls.perform_all parameterName
      (DocParamCollection.new DocParamBlock configuration) calls in
  let held := DocParamCollectionCalls.added_since_clear calls in
  DocParamCollection.blocks collection = held
  /\ DocParamCollection.iterator collection = held
  /\ DocParamCollection.count collection = Z.of_nat (length held)
  /\ (forall name,
        DocParamCollection.tryGetBlockByName collection name
        = snd <$> list_find (fun block => parameterName block = name) held)
  /\ (DocParamCollection._blocksByName collection = None <-> held = [])
  /\ DocParamCollection.configuration collection = configuration.
Proof.
  intros collection held.
  assert (Hblocks : DocParamCollection._blocks collection = held).
  { subst collection held. rewrite perform_all_blocks. simpl.
    now destruct (existsb _ calls). }
  destruct (perform_all_allocation parameterName calls
              (DocParamCollection.new DocParamBlock configuration)) as [Halloc Hcfg];
    [simpl; tauto|].
  fold collection in Halloc, Hcfg. rewrite Hblocks in Halloc.
  unfold DocParamCollection.blocks, DocParamCollection.iterator,
    DocParamCollection.count.
  rewrite Hblocks. repeat (split; [reflexivity|]).
  split; [|split; [exact Halloc|exact Hcfg]].
  intros name. rewrite <- Hblocks. subst collection.
  apply perform_all_keeps_index. reflexivity.
Qed.

Lemma DocParamCollection_calls_invariant_witness :
  let collection :=
    DocParamCollectionCalls.perform_all fst (DocParamCollection.new (string * nat) tt)
      [ DocParamCollectionCalls.Add ("x", 1%nat);
        DocParamCollectionCalls.Clear;
        DocParamCollectionCalls.Add ("y", 2%nat);
        DocParamCollectionCalls.Add ("x", 3%nat);
        DocParamCollectionCalls.Add ("x", 4%nat) ] in
  DocParamCollection.blocks collection = [ ("y", 2%nat); ("x", 3%nat); ("x", 4%nat) ]
  /\ DocParamCollection.tryGetBlockByName collection "x" = Some ("x", 3%nat).
Proof.
  intros collection.
  destruct (DocParamCollection_calls_invariant fst tt
              [ DocParamCollectionCalls.Add ("x", 1%nat);
                DocParamCollectionCalls.Clear;
                DocParamCollectionCalls.Add ("y", 2%nat);
                DocParamCollectionCalls.Add ("x", 3%nat);
                DocParamCollectionCalls.Add ("x", 4%nat) ])
    as (Hblocks & _ & _ & Hfind & _).
  fold collection in Hblocks, Hfind.
  split; [exact Hblocks|]. rewrite Hfind. reflexivity.
Defined.

(** After any sequence of [add] and [clear] calls on a new collection, name
    lookup is sound and complete for the list: a block returned for a name
    is in [blocks] and has that name; every block in [blocks] has its name
    resolved, to a block of the same name; and a name resolves to nothing
    exactly when no block in [blocks] has it. *)
Theorem tryGetBlockByName_sound_complete {TSDocConfiguration DocParamBlock : Type}
    (parameterName : DocParamBlock -> string)
    (configuration : TSDocConfiguration)
    (calls : list (DocParamCollectionCalls.call DocParamBlock)) :
  let collection :=
    DocParamCollectionCalls.perform_all parameterName
      (DocParamCollection.new DocParamBlock configuration) calls in
  (forall name block,
     DocParamCollection.tryGetBlockByName collection name = Some block ->
     block ∈ DocParamCollection.blocks collection /\ parameterName block = name)
  /\ (forall block,
        block ∈ DocParamCollection.blocks collection ->
        exists first,
          DocParamCollection.tryGetBlockByName collection (parameterName block)
          = Some first
          /\ parameterName first = parameterName block)
  /\ (forall name,
        DocParamCollection.tryGetBlockByName collection name = None
        <-> forall block,
              block ∈ DocParamCollection.blocks collection ->
              parameterName block <> name).
Proof.
  intros collection.
  assert (Hindex : forall name,
            DocParamCollection.tryGetBlockByName collection name
            = snd <$> list_find (fun block => parameterName block = name)
                        (DocParamCollection.blocks collection)).
  { subst collection. apply perform_all_keeps_index. reflexivity. }
  split; [|split].
  - intros name block. rewrite Hindex.
    destruct (list_find _ _) as [[i found]|] eqn:Hfind; [|discriminate].
    simpl. intros [= ->]. apply list_find_Some in Hfind as (Hlookup & Hname & _).
    split; [|exact Hname]. apply list_elem_of_lookup. eauto.
  - intros block Hin. rewrite Hindex.
    destruct (list_find (fun b => parameterName b = parameterName block)
                (DocParamCollection.blocks collection)) as [[i found]|] eqn:Hfind.
    + exists found. split; [reflexivity|].
      now apply list_find_Some in Hfind as (_ & Hname & _).
    + apply list_find_None in Hfind. rewrite Forall_forall in Hfind.
      exfalso. now apply (Hfind block Hin).
  - intros name. rewrite Hindex.
    destruct (list_find (fun b => parameterName b = name)
                (DocParamCollection.blocks collection)) as [[i found]|] eqn:Hfind.
    + split; [discriminate|]. intros Hnone. exfalso.
      apply list_find_Some in Hfind as (Hlookup & Hname & _).
      apply (Hnone found); [|exact Hname]. apply list_elem_of_lookup. eauto.
    + split; [|reflexivity]. intros _.
      apply list_find_None in Hfind. now rewrite Forall_forall in Hfind.
Qed.

Lemma tryGetBlockByName_sound_complete_witness :
  let collection :=
    DocParamCollectionCalls.perform_all fst (DocParamCollection.new (string * nat) tt)
      [ DocParamCollectionCalls.Add ("x", 1%nat);
        DocParamCollectionCalls.Add ("y", 2%nat) ] in
  DocParamCollection.tryGetBlockByName collection "z" = None.
Proof.
  intros collection.
  destruct (tryGetBlockByName_sound_complete fst tt
              [ DocParamCollectionCalls.Add ("x", 1%nat);
                DocParamCollectionCalls.Add ("y", 2%nat) ])
    as (_ & _ & Hnone).
  apply Hnone. intros block Hin.
  apply list_elem_of_In in Hin. simpl in Hin.
  destruct Hin as [<-|[<-|[]]]; discriminate.
Defined.

(** Adding never redirects a name that already resolves: in any state, when
    [tryGetBlockByName(name)] returns a block, it returns the same block
    after every further sequence of [add] calls; and [count] grows by the
    number of calls. *)
Theorem tryGetBlockByName_stable_under_add {TSDocConfiguration DocParamBlock : Type}
    (parameterName : DocParamBlock -> string)
    (this : DocParamCollection.t TSDocConfiguration DocParamBlock)
    (docParamBlocks : list DocParamBlock) (name : string) (block : DocParamBlock) :
  DocParamCollection.tryGetBlockByName this name = Some block ->
  let after := DocParamCollection.add_all parameterName this docParamBlocks in
  DocParamCollection.tryGetBlockByName after name = Some block
  /\ DocParamCollection.count after
     = DocParamCollection.count this + Z.of_nat (length docParamBlocks)
  /\ DocParamCollection.blocks after
     = DocParamCollection.blocks this ++ docParamBlocks.
Proof.
  intros Hsome after. subst after. split; [|split].
  - now rewrite tryGetBlockByName_add_all, Hsome.
  - unfold DocParamCollection.count. rewrite blocks_add_all, length_app. lia.
  - apply blocks_add_all.
Qed.

Lemma tryGetBlockByName_stable_under_add_witness :
  let this :=
    DocParamCollection.add fst (DocParamCollection.new (string * nat) tt) ("x", 1%nat) in
  DocParamCollection.tryGetBlockByName this "x" = Some ("x", 1%nat)
  /\ DocParamCollection.tryGetBlockByName
       (DocParamCollection.add_all fst this [ ("x", 2%nat); ("y", 3%nat) ]) "x"
     = Some ("x", 1%nat).
Proof.
  intros this.
  assert (Hsome : DocParamCollection.tryGetBlockByName this "x" = Some ("x", 1%nat))
    by (vm_compute; reflexivity).
  split; [exact Hsome|].
  exact (proj1 (tryGetBlockByName_stable_under_add fst this
                  [ ("x", 2%nat); ("y", 3%nat) ] "x" _ Hsome)).
Defined.


(** * Properties of [DocInlineTag] *)

Lemma tagContent_repeat_cached {TSDocConfiguration TokenSequence DocInlineTagBase : Type}
    (TokenSequence_toString : TokenSequence -> string)
    (this : DocInlineTag.t TSDocConfiguration TokenSequence DocInlineTagBase)
    (cached : string) (n : nat) :
  DocInlineTag._tagContent this = Some cached ->
  DocInlineTag.tagContent_repeat TokenSequence_toString n this
  = (replicate n cached, this).
Proof.
  intros Hcached. induction n as [|n IH]; simpl; [reflexivity|].
  unfold DocInlineTag.tagContent at 1. rewrite Hcached, IH. reflexivity.
Qed.

Lemma tagContent_repeat_absent {TSDocConfiguration TokenSequence DocInlineTagBase : Type}
    (TokenSequence_toString : TokenSequence -> string)
    (this : DocInlineTag.t TSDocConfiguration TokenSequence DocInlineTagBase)
    (n : nat) :
  DocInlineTag._tagContent this = None ->
  DocInlineTag._tagContentExcerpt this = None ->
  DocInlineTag.tagContent_repeat TokenSequence_toString n this
  = (replicate n EmptyString, this).
Proof.
  intros Hcontent Hexcerpt. induction n as [|n IH]; simpl; [reflexivity|].
  unfold DocInlineTag.tagContent at 1. rewrite Hcontent, Hexcerpt, IH. reflexivity.
Qed.

(** A [DocInlineTag] built from literal parameters keeps the tag content as
    it is given: the constructor adds no check of its own (it throws exactly
    when the base constructor does, so content with a line feed is accepted),
    [tagContent] returns the given string and leaves the node alone, and the
    content child is [undefined]. *)
Theorem DocInlineTag_literal_content
    {TSDocConfiguration TokenSequence DocDeclarationReference : Type}
    {IDocInlineTagBaseParameters IDocInlineTagBaseParsedParameters DocInlineTagBase : Type}
    (TokenSequence_toString : TokenSequence -> string)
    (DocInlineTagBase_new :
       IDocInlineTagBaseParameters + IDocInlineTagBaseParsedParameters ->
       result DocInlineTagBase)
    (DocInlineTagBase_configuration : DocInlineTagBase -> TSDocConfiguration)
    (inherited : IDocInlineTagBaseParameters) (content : string) :
  let parameters :=
    DocInlineTag.IDocInlineTagParameters (TokenSequence := TokenSequence)
      inherited content in
  (throws (DocInlineTag.new DocInlineTagBase_new DocInlineTagBase_configuration parameters)
   <-> throws (DocInlineTagBase_new (inl inherited)))
  /\ (forall node,
        DocInlineTag.new DocInlineTagBase_new DocInlineTagBase_configuration parameters
        = Ok node ->
        (forall n : nat,
           DocInlineTag.tagContent_repeat TokenSequence_toString n node
           = (replicate n content, node))
        /\ DocInlineTag.tagContent TokenSequence_toString node = (content, node)
        /\ DocInlineTag.getChildNodesForContent DocDeclarationReference node = [ None ]).
Proof.
  intros parameters. subst parameters. simpl.
  destruct (DocInlineTagBase_new (inl inherited)) as [base|message]; simpl.
  - split; [tauto|]. intros node [= <-].
    split; [intros n; now apply tagContent_repeat_cached|]. split; reflexivity.
  - split; [tauto|]. discriminate.
Qed.

Lemma DocInlineTag_literal_content_witness :
  exists node,
    DocInlineTag.new (IDocInlineTagBaseParsedParameters := unit)
      (fun _ => Ok "@myTag") (fun _ : string => tt)
      (DocInlineTag.IDocInlineTagParameters (TokenSequence := string) tt
         (String "x" (String JsString.LF (String "y" EmptyString))))
    = Ok node
    /\ DocInlineTag.tagContent (fun s : string => s) node
       = (String "x" (String JsString.LF (String "y" EmptyString)), node).
Proof.
  eexists. split; [reflexivity|].
  destruct (DocInlineTag_literal_content (DocDeclarationReference := unit)
              (IDocInlineTagBaseParsedParameters := unit)
              (fun s : string => s) (fun _ => Ok "@myTag") (fun _ : string => tt) tt
              (String "x" (String JsString.LF (String "y" EmptyString))))
    as [_ Hnode].
  exact (proj1 (proj2 (Hnode _ eq_refl))).
Defined.

(** A [DocInlineTag] built from parsed parameters.  Without a content
    excerpt, [tagContent] is the empty string at every read and nothing is
    cached: the node stays as it is, and the content child is [undefined].
    With a content excerpt, the first read returns its [toString()] and
    stores it, and every later read returns the stored string whatever
    [toString] returns by then.  Reading never throws. *)
Theorem DocInlineTag_parsed_content
    {TSDocConfiguration TokenSequence DocDeclarationReference : Type}
    {IDocInlineTagBaseParameters IDocInlineTagBaseParsedParameters DocInlineTagBase : Type}
    (TokenSequence_toString : TokenSequence -> string)
    (DocInlineTagBase_new :
       IDocInlineTagBaseParameters + IDocInlineTagBaseParsedParameters ->
       result DocInlineTagBase)
    (DocInlineTagBase_configuration : DocInlineTagBase -> TSDocConfiguration)
    (inherited : IDocInlineTagBaseParsedParameters)
    (tagContentExcerpt : option TokenSequence)
    (node : DocInlineTag.t TSDocConfiguration TokenSequence DocInlineTagBase) :
  DocInlineTag.new DocInlineTagBase_new DocInlineTagBase_configuration
    (DocInlineTag.IDocInlineTagParsedParameters inherited tagContentExcerpt)
  = Ok node ->
  DocInlineTag._tagContent node = None
  /\ match tagContentExcerpt with
     | None =>
         (forall n : nat,
            DocInlineTag.tagContent_repeat TokenSequence_toString n node
            = (replicate n EmptyString, node))
         /\ DocInlineTag.getChildNodesForContent DocDeclarationReference node
            = [ None ]
     | Some content =>
         exists cached,
           DocInlineTag.tagContent TokenSequence_toString node
           = (TokenSequence_toString content, cached)
           /\ DocInlineTag._tagContent cached = Some (TokenSequence_toString content)
           /\ (forall (toString' : TokenSequence -> string) (n : nat),
                 DocInlineTag.tagContent_repeat toString' n cached
                 = (replicate n (TokenSequence_toString content), cached))
           /\ DocInlineTag.getChildNodesForContent DocDeclarationReference node
              = [ Some (DocNode.Excerpt
                          (DocExcerpt.mk
                             (DocInlineTagBase_configuration (DocInlineTag.base node))
                             ExcerptKind.InlineTag_TagContent content)) ]
     end.
Proof.
  simpl. destruct (DocInlineTagBase_new (inr inherited)) as [base|message];
    [|discriminate].
  intros [= <-]. split; [reflexivity|].
  destruct tagContentExcerpt as [content|].
  - eexists. split; [reflexivity|]. split; [reflexivity|].
    split; [|reflexivity].
    intros toString' n. now apply tagContent_repeat_cached.
  - split; [|reflexivity]. intros n. now apply tagContent_repeat_absent.
Qed.

Lemma DocInlineTag_parsed_content_witness :
  exists node,
    DocInlineTag.new (IDocInlineTagBaseParameters := unit)
      (fun _ => Ok "@myTag") (fun _ : string => tt)
      (DocInlineTag.IDocInlineTagParsedParameters (TokenSequence := string) tt None)
    = Ok node
    /\ DocInlineTag.tagContent_repeat (fun s : string => s) 2 node
       = ([ ""; "" ], node).
Proof.
  eexists. split; [reflexivity|].
  destruct (DocInlineTag_parsed_content (DocDeclarationReference := unit)
              (IDocInlineTagBaseParameters := unit)
              (fun s : string => s) (fun _ => Ok "@myTag") (fun _ : string => tt) tt
              None _ eq_refl)
    as [_ [Hreads _]].
  exact (Hreads 2%nat).
Defined.


(** * Properties of the playground's [DocHtmlView] *)

Lemma or_truthy (value fallback : option string) :
  DocHtmlView.truthy fallback = true ->
  DocHtmlView.truthy (DocHtmlView.or value fallback) = true.
Proof.
  intros Hfallback. unfold DocHtmlView.or.
  destruct (DocHtmlView.truthy value) eqn:Hvalue; assumption.
Qed.

Lemma truthy_Some (value : option string) :
  DocHtmlView.truthy value = true <-> exists text, value = Some text /\ text <> EmptyString.
Proof.
  destruct value as [[|c s]|]; simpl; split.
  - discriminate.
  - intros (text & [= <-] & Hne). congruence.
  - intros _. eexists. split; [reflexivity|discriminate].
  - reflexivity.
  - discriminate.
  - intros (text & Hsome & _). discriminate.
Qed.

(** The text of a rendered link is never empty.  A non-empty [linkText] of
    the tag is used as it is.  Without one, the text is the URL destination
    when that is non-empty; otherwise it is the fallback of the second
    branch, which is ["???"] when the tag has no code destination. *)
Theorem LinkTag_linkText_never_empty (linkTag : DocHtmlView.DocLinkTag) :
  (exists text,
     DocHtmlView.LinkTag_linkText linkTag = Some text /\ text <> EmptyString)
  /\ (DocHtmlView.truthy (DocHtmlView.linkText linkTag) = true ->
      DocHtmlView.LinkTag_linkText linkTag = DocHtmlView.linkText linkTag)
  /\ (DocHtmlView.truthy (DocHtmlView.linkText linkTag) = false ->
      DocHtmlView.truthy (DocHtmlView.urlDestination linkTag) = true ->
      DocHtmlView.LinkTag_linkText linkTag = DocHtmlView.urlDestination linkTag)
  /\ (DocHtmlView.truthy (DocHtmlView.linkText linkTag) = false ->
      DocHtmlView.truthy (DocHtmlView.urlDestination linkTag) = false ->
      DocHtmlView.codeDestination linkTag = None ->
      DocHtmlView.LinkTag_linkText linkTag = Some "???").
Proof.
  split; [|split; [|split]].
  - apply truthy_Some. unfold DocHtmlView.LinkTag_linkText.
    destruct (DocHtmlView.truthy (DocHtmlView.urlDestination linkTag)) eqn:Hurl.
    + now apply or_truthy.
    + now apply or_truthy.
  - intros Htext. unfold DocHtmlView.LinkTag_linkText, DocHtmlView.or.
    rewrite Htext. simpl. rewrite Htext.
    now destruct (DocHtmlView.truthy (DocHtmlView.urlDestination linkTag)).
  - intros Htext Hurl. unfold DocHtmlView.LinkTag_linkText, DocHtmlView.or.
    now rewrite Hurl, Htext.
  - intros Htext Hurl Hcode. unfold DocHtmlView.LinkTag_linkText, DocHtmlView.or.
    now rewrite Hurl, Htext, Hcode.
Qed.

Lemma LinkTag_linkText_never_empty_witness :
  DocHtmlView.LinkTag_linkText
    {| DocHtmlView.urlDestination := Some "";
       DocHtmlView.linkText := Some "";
       DocHtmlView.codeDestination := None |}
  = Some "???".
Proof.
  apply (LinkTag_linkText_never_empty
           {| DocHtmlView.urlDestination := Some "";
              DocHtmlView.linkText := Some "";
              DocHtmlView.codeDestination := None |}); reflexivity.
Defined.

(** Without link text and URL, the link shows the identifier of the last
    member reference of the code destination when that identifier is
    non-empty; the earlier member references are not looked at. *)
Theorem LinkTag_linkText_last_identifier (linkTag : DocHtmlView.DocLinkTag)
    (earlier : list DocHtmlView.DocMemberReference) (name : string) :
  DocHtmlView.truthy (DocHtmlView.linkText linkTag) = false ->
  DocHtmlView.truthy (DocHtmlView.urlDestination linkTag) = false ->
  DocHtmlView.codeDestination linkTag
  = Some {| DocHtmlView.memberReferences :=
              earlier ++ [ {| DocHtmlView.memberIdentifier :=
                                Some {| DocHtmlView.identifier := name |} |} ] |} ->
  DocHtmlView.LinkTag_linkText linkTag
  = Some (if decide (name = EmptyString) then "???" else name).
Proof.
  intros Htext Hurl Hcode. unfold DocHtmlView.LinkTag_linkText, DocHtmlView.or.
  rewrite Hurl, Htext, Hcode. cbn [DocHtmlView.memberReferences].
  rewrite length_app. simpl length.
  destruct (Z.gtb_spec (Z.of_nat (length earlier + 1)) 0) as [_|Hle]; [|lia].
  replace (Z.to_nat (Z.of_nat (length earlier + 1) - 1))
    with (length earlier + 0)%nat by lia.
  rewrite lookup_app_r by lia.
  replace (length earlier + 0 - length earlier)%nat with 0%nat by lia.
  simpl. destruct name; reflexivity.
Qed.

Lemma LinkTag_linkText_last_identifier_witness :
  DocHtmlView.LinkTag_linkText
    {| DocHtmlView.urlDestination := None;
       DocHtmlView.linkText := None;
       DocHtmlView.codeDestination :=
         Some {| DocHtmlView.memberReferences :=
                   [ {| DocHtmlView.memberIdentifier :=
                          Some {| DocHtmlView.identifier := "MyClass" |} |} ]
                   ++ [ {| DocHtmlView.memberIdentifier :=
                             Some {| DocHtmlView.identifier := "member" |} |} ] |} |}
  = Some "member".
Proof.
  apply (LinkTag_linkText_last_identifier _
           [ {| DocHtmlView.memberIdentifier :=
                  Some {| DocHtmlView.identifier := "MyClass" |} |} ] "member");
    reflexivity.
Defined.

Lemma Number_toString_inj (a b : Z) :
  DocHtmlView.Number_toString a = DocHtmlView.Number_toString b -> a = b.
Proof.
  unfold DocHtmlView.Number_toString. intros Heq.
  apply DecimalZ.to_int_inj.
  assert (Hparse : forall n,
            DecimalString.NilZero.int_of_string
              (DecimalString.NilZero.string_of_int (Z.to_int n))
            = Some (Z.to_int n)).
  { intros n. apply DecimalString.NilZero.isi; destruct n; simpl;
      try discriminate; intros [= H]; now apply DecimalPos.Unsigned.to_uint_nonnil in H. }
  pose proof (Hparse a) as Ha. rewrite Heq, Hparse in Ha. congruence.
Qed.

Lemma string_app_inj_l (prefix a b : string) :
  prefix +:+ a = prefix +:+ b -> a = b.
Proof.
  induction prefix as [|c prefix IH]; [auto|].
  change (String c prefix +:+ a) with (String c (prefix +:+ a)).
  change (String c prefix +:+ b) with (String c (prefix +:+ b)).
  intros [= H]. now apply IH.
Qed.

Lemma example_sections_lookup {DocNodeContainer : Type}
    (exampleBlocks_length : Z)
    (remaining : list (DocHtmlView.DocBlock DocNodeContainer)) :
  forall (exampleNumber : Z) (k : nat) (exampleBlock : DocHtmlView.DocBlock DocNodeContainer),
    remaining !! k = Some exampleBlock ->
    DocHtmlView.example_sections exampleBlocks_length exampleNumber remaining !! k
    = Some (if exampleBlocks_length >? 1
            then "Example " +:+ DocHtmlView.Number_toString (exampleNumber + Z.of_nat k)
            else "Example",
            DocHtmlView.content exampleBlock).
Proof.
  induction remaining as [|first rest IH]; intros exampleNumber k exampleBlock Hk.
  - discriminate.
  - destruct k as [|k].
    + simpl in *. injection Hk as ->. now rewrite Z.add_0_r.
    + replace (exampleNumber + Z.of_nat (S k))
        with ((exampleNumber + 1) + Z.of_nat k) by lia.
      simpl. apply IH. exact Hk.
Qed.

Lemma example_sections_length {DocNodeContainer : Type}
    (exampleBlocks_length : Z)
    (remaining : list (DocHtmlView.DocBlock DocNodeContainer)) :
  forall exampleNumber : Z,
    length (DocHtmlView.example_sections exampleBlocks_length exampleNumber remaining)
    = length remaining.
Proof.
  induction remaining as [|first rest IH]; intros exampleNumber; simpl;
    [reflexivity|]. now rewrite IH.
Qed.

(** The example sections that [render] produces: one for every custom block
    whose tag is the example tag and for no other block, in the order of the
    blocks, each with the content of its block.  A single example is headed
    ["Example"]; two or more are headed ["Example 1"], ["Example 2"], ... in
    order, so that no two headings are equal. *)
Theorem render_examples_headings {DocNodeContainer : Type}
    (StandardTags_example_tagNameWithUpperCase : string)
    (customBlocks : list (DocHtmlView.DocBlock DocNodeContainer)) :
  let examples :=
    DocHtmlView.exampleBlocks StandardTags_example_tagNameWithUpperCase customBlocks in
  let sections :=
    DocHtmlView.render_examples StandardTags_example_tagNameWithUpperCase customBlocks in
  (forall block,
     block ∈ examples
     <-> block ∈ customBlocks
         /\ DocHtmlView.blockTag_tagNameWithUpperCase block
            = StandardTags_example_tagNameWithUpperCase)
  /\ snd <$> sections = DocHtmlView.content <$> examples
  /\ (length examples = 1%nat -> fst <$> sections = [ "Example" ])
  /\ ((1 < length examples)%nat ->
      (forall k : nat,
         (k < length examples)%nat ->
         (fst <$> sections) !! k
         = Some ("Example " +:+ DocHtmlView.Number_toString (Z.of_nat k + 1)))
      /\ NoDup (fst <$> sections)).
Proof.
  intros examples sections.
  assert (Hlookup : forall k exampleBlock,
            examples !! k = Some exampleBlock ->
            sections !! k
            = Some (if Z.of_nat (length examples) >? 1
                    then "Example " +:+ DocHtmlView.Number_toString (1 + Z.of_nat k)
                    else "Example",
                    DocHtmlView.content exampleBlock)).
  { intros k exampleBlock Hk. now apply example_sections_lookup. }
  assert (Hlength : length sections = length examples).
  { apply example_sections_length. }
  split; [|split; [|split]].
  - intros block. subst examples. unfold DocHtmlView.exampleBlocks.
    rewrite list_elem_of_filter. tauto.
  - apply list_eq. intros k. rewrite !list_lookup_fmap.
    destruct (examples !! k) as [exampleBlock|] eqn:Hk.
    + now rewrite (Hlookup _ _ Hk).
    + apply lookup_ge_None in Hk.
      rewrite (proj2 (lookup_ge_None sections k)) by lia. reflexivity.
  - intros Hone. apply list_eq. intros k. rewrite list_lookup_fmap.
    destruct (examples !! k) as [exampleBlock|] eqn:Hk.
    + rewrite (Hlookup _ _ Hk), Hone. simpl.
      apply lookup_lt_Some in Hk. assert (k = 0%nat) as -> by lia. reflexivity.
    + apply lookup_ge_None in Hk.
      rewrite (proj2 (lookup_ge_None sections k)) by lia.
      destruct k; [lia|reflexivity].
  - intros Hmany.
    assert (Hgt : (Z.of_nat (length examples) >? 1) = true).
    { rewrite Z.gtb_ltb. apply Z.ltb_lt. lia. }
    assert (Hheading : forall k : nat,
              (k < length examples)%nat ->
              (fst <$> sections) !! k
              = Some ("Example " +:+ DocHtmlView.Number_toString (Z.of_nat k + 1))).
    { intros k Hk. apply lookup_lt_is_Some in Hk as [exampleBlock Hk].
      rewrite list_lookup_fmap, (Hlookup _ _ Hk), Hgt. simpl.
      now rewrite Z.add_comm. }
    split; [exact Hheading|].
    apply NoDup_alt. intros i j heading Hi Hj.
    assert (Hi' : (i < length examples)%nat).
    { apply lookup_lt_Some in Hi. rewrite length_fmap in Hi. lia. }
    assert (Hj' : (j < length examples)%nat).
    { apply lookup_lt_Some in Hj. rewrite length_fmap in Hj. lia. }
    rewrite (Hheading _ Hi') in Hi. rewrite (Hheading _ Hj') in Hj.
    rewrite <- Hj in Hi. injection Hi as Hi.
    apply string_app_inj_l, Number_toString_inj in Hi. lia.
Qed.

Lemma render_examples_headings_witness :
  DocHtmlView.render_examples "@EXAMPLE"
    [ DocHtmlView.Build_DocBlock "@EXAMPLE" 10%nat;
      DocHtmlView.Build_DocBlock "@CUSTOM" 20%nat;
      DocHtmlView.Build_DocBlock "@EXAMPLE" 30%nat ]
  = [ ("Example 1", 10%nat); ("Example 2", 30%nat) ]
  /\ NoDup (fst <$> DocHtmlView.render_examples "@EXAMPLE"
                      [ DocHtmlView.Build_DocBlock "@EXAMPLE" 10%nat;
                        DocHtmlView.Build_DocBlock "@CUSTOM" 20%nat;
                        DocHtmlView.Build_DocBlock "@EXAMPLE" 30%nat ]).
Proof.
  split; [vm_compute; reflexivity|].
  destruct (render_examples_headings "@EXAMPLE"
              [ DocHtmlView.Build_DocBlock "@EXAMPLE" 10%nat;
                DocHtmlView.Build_DocBlock "@CUSTOM" 20%nat;
                DocHtmlView.Build_DocBlock "@EXAMPLE" 30%nat ])
    as (_ & _ & _ & Hmany).
  apply Hmany. vm_compute. lia.
Defined.


(** * Carriage returns and locations *)

Lemma walk_without_CR (text : string) :
  forall location : ITextLocation,
    LocationSpec.walk location (without_CR text) = LocationSpec.walk location text.
Proof.
  induction text as [|c text IH]; intros location; [reflexivity|]. simpl.
  destruct (decide (c = JsString.CR)) as [->|Hcr].
  - rewrite bool_decide_eq_true_2 by reflexivity. rewrite IH. reflexivity.
  - rewrite bool_decide_eq_false_2 by exact Hcr. simpl. apply IH.
Qed.

(** Carriage returns are invisible to [getLocation]: the location of the end
    of a text is the location of the end of the same text with every
    carriage return removed, so a text with CR LF line ends and the same text
    with LF line ends end at the same line and column. *)
Theorem getLocation_ignores_CR (buffer : string) (pos end_ pos' end_' : Z) :
  TextRange.getLocation (TextRange.mk buffer pos end_) (JsString.length buffer)
  = TextRange.getLocation (TextRange.mk (without_CR buffer) pos' end_')
      (JsString.length (without_CR buffer)).
Proof.
  assert (Hwhole : forall s, JsString.substring s 0 (JsString.length s) = s).
  { intros s. rewrite js_substring_in_bounds
      by (unfold in_bounds, JsString.length; lia).
    rewrite Z.sub_0_r. unfold JsString.length. rewrite Nat2Z.id.
    apply string_substring_all. }
  rewrite !getLocation_in_range by (unfold JsString.length; simpl; lia).
  simpl. rewrite !Hwhole. unfold LocationSpec.locate.
  now rewrite walk_without_CR.
Qed.
